(** * Onboarding and session identity: a shallow embedding

    The development follows [src/account-manager/onboarding.js]:
    - [JS]         the fragment of JavaScript values the module manipulates;
    - [Tiers]      [getDefaultTierId];
    - [Onboarding] the polling protocol of [onboardUser];
    - [Session]    [deriveSessionId], [generateBinaryStyleId], [clearSessionStore].
    The properties come after the definitions, module by module. *)

From Stdlib Require Import ZArith NArith String Ascii List Lia Bool.
From Stdlib Require Import DecimalString DecimalZ DecimalPos.
From stdpp Require Import base option list list_numbers strings gmap.

Local Open Scope string_scope.
Local Open Scope list_scope.
Local Open Scope Z_scope.

Set Warnings "-register-all".

(* ===================================================================== *)
(** ** JavaScript values *)
(* ===================================================================== *)

Module JS.

(** Values that can reach the module: JSON data coming back from the
    service, the tier descriptors, and the request body it builds.
    Numbers are the integral ones; [NaN] cannot be produced by [JSON.parse]. *)
Inductive value : Type :=
  | VUndefined
  | VNull
  | VBool (b : bool)
  | VNum (n : Z)
  | VStr (s : string)
  | VObj (fields : list (string * value))
  | VArr (items : list value).

(** [ToBoolean]: the test performed by [if (x)], [!x] and [a && b]. *)
Definition truthy (v : value) : bool :=
  match v with
  | VUndefined | VNull => false
  | VBool b => b
  | VNum n => negb (n =? 0)
  | VStr s => negb (String.eqb s "")
  | VObj _ | VArr _ => true
  end.

Definition nullish (v : value) : bool :=
  match v with
  | VUndefined | VNull => true
  | _ => false
  end.

(** [x === true] *)
Definition strictly_true (v : value) : bool :=
  match v with
  | VBool true => true
  | _ => false
  end.

Definition is_string (v : value) : bool :=
  match v with
  | VStr _ => true
  | _ => false
  end.

(** Own properties of an object literal, in insertion order. *)
Fixpoint assoc {A : Type} (k : string) (fs : list (string * A)) : option A :=
  match fs with
  | [] => None
  | (k', v) :: rest => if String.eqb k k' then Some v else assoc k rest
  end.

(** [o[k] = v] on an object literal: overwrite in place or append. *)
Fixpoint assoc_set {A : Type} (k : string) (v : A) (fs : list (string * A))
  : list (string * A) :=
  match fs with
  | [] => [(k, v)]
  | (k', v') :: rest =>
      if String.eqb k k' then (k, v) :: rest else (k', v') :: assoc_set k v rest
  end.

(** Reading property [k] of a non-nullish value.  The keys this module
    reads ([id], [isDefault], [done], [response], [cloudaicompanionProject])
    are neither array indices nor inherited from a prototype, so only the
    own properties of objects answer. *)
Definition own (v : value) (k : string) : value :=
  match v with
  | VObj fs => default VUndefined (assoc k fs)
  | _ => VUndefined
  end.

Definition has_own (v : value) (k : string) : bool :=
  match v with
  | VObj fs => bool_decide (is_Some (assoc k fs))
  | _ => false
  end.

Definition set_own (v : value) (k : string) (x : value) : value :=
  match v with
  | VObj fs => VObj (assoc_set k x fs)
  | _ => v
  end.

(** Optional chaining [v?.k]. *)
Definition opt_member (v : value) (k : string) : value :=
  if nullish v then VUndefined else own v k.

(** What a [throw] carries here: always an [Error] object, so that
    [error.message] in a handler is defined. *)
Record error : Type := Error { err_name : string; message : string }.

(** Plain member access [v.k]: a [TypeError] on [null] and [undefined]. *)
Definition member (v : value) (k : string) : error + value :=
  if nullish v
  then inl (Error "TypeError" "Cannot read properties of null or undefined")
  else inr (own v k).

End JS.

(* ===================================================================== *)
(** ** Tier selection *)
(* ===================================================================== *)

Module Tiers.
Import JS.

(** The [for (const tier of allowedTiers)] loop of [getDefaultTierId]:
    leaves with [tier.id] at the first tier whose [isDefault] is truthy. *)
Fixpoint first_default (tiers : list value) : option value :=
  match tiers with
  | [] => None
  | tier :: rest =>
      if truthy (opt_member tier "isDefault")
      then Some (own tier "id")
      else first_default rest
  end.

(** [getDefaultTierId(allowedTiers)]; [None] is an absent ([undefined] or
    [null]) argument, [Some tiers] an array. *)
Definition getDefaultTierId (allowedTiers : option (list value)) : value :=
  match allowedTiers with
  | None => VUndefined
  | Some tiers =>
      if (length tiers =? 0)%nat then VUndefined
      else match first_default tiers with
           | Some id => id
           | None => opt_member (nth 0 tiers VUndefined) "id"
           end
  end.

(** A tier descriptor [{id, isDefault}] as it arrives from [loadCodeAssist]. *)
Definition tier (id : string) (isDefault : bool) : value :=
  VObj [("id", VStr id); ("isDefault", VBool isDefault)].

(** The selection rule read literally from the specification: the
    _descriptor_ flagged [isDefault === true], else the first descriptor. *)
Definition defaultTier_as_specified (allowedTiers : option (list value)) : value :=
  match allowedTiers with
  | None => VUndefined
  | Some tiers =>
      match List.find (fun t => strictly_true (opt_member t "isDefault")) tiers with
      | Some t => t
      | None => nth 0 tiers VUndefined
      end
  end.

(** The [isDefault] flag of a list element, as the loop tests it. *)
Definition flag_truthy (t : value) : bool := truthy (opt_member t "isDefault").

(** The flag is a boolean or is missing. *)
Definition flag_boolean (t : value) : bool :=
  match opt_member t "isDefault" with
  | VBool _ | VUndefined => true
  | _ => false
  end.

End Tiers.

(* ===================================================================== *)
(** ** The onboarding handshake *)
(* ===================================================================== *)

Module Onboarding.
Import JS.

(** The argument of [fetch]; [body] is the object handed to
    [JSON.stringify], kept unserialised. *)
Record request : Type := Request {
  url : string;
  method : string;
  headers : list (string * string);
  body : value
}.

(** What the code looks at in a [Response]: [ok], [status], and the two
    body readers, each of which may reject. *)
Record response : Type := Response {
  ok : bool;
  status : Z;
  text : error + string;
  json : error + value
}.

Inductive fetch_result : Type :=
  | Rejected (e : error)
  | Resolved (r : response).

(** Observable effects, oldest first.  The first two fields of [EvFetch]
    are instrumentation: the position of the endpoint in
    [ONBOARD_USER_ENDPOINTS] and the value of the loop variable [attempt]. *)
Inductive event : Type :=
  | EvFetch (ix : nat) (attempt : Z) (req : request) (res : fetch_result)
  | EvSleep (ms : Z).

Definition world : Type := list event.

(** Computations: the effects performed so far survive a [throw]. *)
Inductive outcome (A : Type) : Type :=
  | Val (a : A)
  | Exn (e : error).
Arguments Val {A} a.
Arguments Exn {A} e.

Definition M (A : Type) : Type := world → outcome A * world.

Definition ret {A} (a : A) : M A := fun w => (Val a, w).

Definition throw {A} (e : error) : M A := fun w => (Exn e, w).

Definition bind {A B} (c : M A) (k : A → M B) : M B :=
  fun w =>
    match c w with
    | (Val a, w') => k a w'
    | (Exn e, w') => (Exn e, w')
    end.

Definition lift {A} (r : error + A) : M A :=
  match r with
  | inl e => throw e
  | inr a => ret a
  end.

(** [try { c } catch (error) { h error }] *)
Definition try_catch {A} (c : M A) (h : error → M A) : M A :=
  fun w =>
    match c w with
    | (Val a, w') => (Val a, w')
    | (Exn e, w') => h e w'
    end.

Notation "'let!' x ':=' c 'in' k" := (bind c (fun x => k))
  (at level 10, x name, c at level 100, k at level 200).
Notation "c ';;;' k" := (bind c (fun _ => k))
  (at level 100, k at level 200, right associativity).

(** How a pass through the body of a loop ends. *)
Inductive completion : Type :=
  | Normal
  | Break
  | Return (v : value).

Definition DEFAULT_MAX_ATTEMPTS : Z := 10.
Definition DEFAULT_DELAY_MS : Z := 5000.

Section OnboardUser.

(** The two constants imported from [../constants.js]. *)
Variable ONBOARD_USER_ENDPOINTS : list string.
Variable ANTIGRAVITY_HEADERS : list (string * string).

(** The network as [fetch] sees it: the answer to a request may depend
    on everything that happened before. *)
Variable network : world → request → fetch_result.

(** The parameters of [onboardUser]; an omitted or [null] [projectId]
    is [None]. *)
Variable token : string.
Variable tierId : string.
Variable projectId : option string.
Variable maxAttempts : Z.
Variable delayMs : Z.

Definition projectId_value : value :=
  match projectId with
  | Some p => VStr p
  | None => VNull
  end.

(** [if (projectId)]: a project identifier was supplied, that is a
    non-empty string. *)
Definition supplied : Prop := ∃ p, projectId = Some p ∧ p ≠ "".

Definition metadata : value :=
  let metadata :=
    VObj [("ideType", VStr "IDE_UNSPECIFIED");
          ("platform", VStr "PLATFORM_UNSPECIFIED");
          ("pluginType", VStr "GEMINI")] in
  if truthy projectId_value
  then set_own metadata "duetProject" projectId_value
  else metadata.

Definition requestBody : value :=
  let requestBody := VObj [("tierId", VStr tierId); ("metadata", metadata)] in
  if negb (String.eqb tierId "FREE") && truthy projectId_value
  then set_own requestBody "cloudaicompanionProject" projectId_value
  else requestBody.

(** The object literal with [...ANTIGRAVITY_HEADERS] spread last. *)
Definition request_headers : list (string * string) :=
  fold_left (fun hs kv => assoc_set kv.1 kv.2 hs) ANTIGRAVITY_HEADERS
    [("Authorization", "Bearer " +:+ token);
     ("Content-Type", "application/json")].

Definition onboard_request (endpoint : string) : request :=
  {| url := endpoint +:+ "/v1internal:onboardUser";
     method := "POST";
     headers := request_headers;
     body := requestBody |}.

Definition fetch (ix : nat) (attempt : Z) (req : request) : M response :=
  fun w =>
    let res := network w req in
    let w' := w ++ [EvFetch ix attempt req res] in
    match res with
    | Rejected e => (Exn e, w')
    | Resolved r => (Val r, w')
    end.

Definition sleep (ms : Z) : M unit := fun w => (Val tt, w ++ [EvSleep ms]).

(** [data.response?.cloudaicompanionProject?.id], once [data.response]
    has been read. *)
Definition managed_id_of (response_field : value) : value :=
  opt_member (opt_member response_field "cloudaicompanionProject") "id".

(** The [try] block of one polling attempt; calls to [logger.debug] are
    left out. *)
Definition attempt_body (ix : nat) (endpoint : string) (attempt : Z)
  : M completion :=
  let! response := fetch ix attempt (onboard_request endpoint) in
  if negb (ok response) then
    let! errorText := lift (text response) in
    ret Break
  else
    let! data := lift (json response) in
    let! response_field := lift (member data "response") in
    let managedProjectId := managed_id_of response_field in
    let! done := lift (member data "done") in
    if truthy done && truthy managedProjectId then ret (Return managedProjectId)
    else if truthy done && truthy projectId_value then ret (Return projectId_value)
    else if attempt <? maxAttempts - 1 then (sleep delayMs ;;; ret Normal)
    else ret Normal.

(** The [catch] block: log [error.message], then [break]. *)
Definition on_error (e : error) : M completion :=
  let _ := message e in ret Break.

(** [for (let attempt = 0; attempt < maxAttempts; attempt++)], run over
    the values [attempt] still has to take. *)
Fixpoint for_attempts (ix : nat) (endpoint : string) (attempts : list Z)
  : M completion :=
  match attempts with
  | [] => ret Normal
  | attempt :: rest =>
      let! c := try_catch (attempt_body ix endpoint attempt) on_error in
      match c with
      | Normal => for_attempts ix endpoint rest
      | Break => ret Normal
      | Return v => ret (Return v)
      end
  end.

(** [for (const endpoint of ONBOARD_USER_ENDPOINTS)], followed by the
    final [return null]. *)
Fixpoint for_endpoints (ix : nat) (endpoints : list string) : M value :=
  match endpoints with
  | [] => ret VNull
  | endpoint :: rest =>
      let! c := for_attempts ix endpoint (seqZ 0 maxAttempts) in
      match c with
      | Return v => ret v
      | _ => for_endpoints (S ix) rest
      end
  end.

Definition onboardUser : M value := for_endpoints 0%nat ONBOARD_USER_ENDPOINTS.

(** *** Vocabulary for statements about runs *)

Definition result_of {A} (c : M A) (w : world) : outcome A := (c w).1.

(** The events a computation adds to the history it starts from. *)
Definition emitted {A} (c : M A) (w : world) : list event :=
  drop (length w) (c w).2.

Definition is_transport_failure (res : fetch_result) : bool :=
  match res with
  | Rejected _ => true
  | Resolved r => negb (ok r)
  end.

(** A successful poll: [fetch] resolved, [response.ok] holds and
    [response.json()] produced [data]. *)
Definition parsed (res : fetch_result) : option value :=
  match res with
  | Rejected _ => None
  | Resolved r =>
      if ok r then
        match json r with
        | inr data => Some data
        | inl _ => None
        end
      else None
  end.

Definition done_of (data : value) : value := own data "done".

Definition managedProjectId_of (data : value) : value :=
  managed_id_of (own data "response").

(** What one answer of the network makes the polling loop do. *)
Inductive verdict : Type :=
  | Completed (v : value)
  | Abandon
  | NotDone.

Definition verdict_of (res : fetch_result) : verdict :=
  match parsed res with
  | None => Abandon
  | Some data =>
      if nullish data then Abandon
      else if truthy (done_of data) && truthy (managedProjectId_of data)
      then Completed (managedProjectId_of data)
      else if truthy (done_of data) && truthy projectId_value
      then Completed projectId_value
      else NotDone
  end.

(** The events of the polling loop of endpoint number [ix] from the
    moment [attempt] has a given value, with the way the loop is left:
    [Normal] to go on with the next endpoint, [Return v] to leave
    [onboardUser]. *)
Inductive attempts_run (ix : nat) (endpoint : string)
  : Z → list event → completion → Prop :=
  | attempts_exhausted attempt :
      maxAttempts ≤ attempt →
      attempts_run ix endpoint attempt [] Normal
  | attempts_completed attempt res v :
      attempt < maxAttempts →
      verdict_of res = Completed v →
      attempts_run ix endpoint attempt
        [EvFetch ix attempt (onboard_request endpoint) res] (Return v)
  | attempts_abandoned attempt res :
      attempt < maxAttempts →
      verdict_of res = Abandon →
      attempts_run ix endpoint attempt
        [EvFetch ix attempt (onboard_request endpoint) res] Normal
  | attempts_retry attempt res evs c :
      attempt < maxAttempts - 1 →
      verdict_of res = NotDone →
      attempts_run ix endpoint (attempt + 1) evs c →
      attempts_run ix endpoint attempt
        (EvFetch ix attempt (onboard_request endpoint) res
           :: EvSleep delayMs :: evs) c
  | attempts_last attempt res evs c :
      attempt = maxAttempts - 1 →
      verdict_of res = NotDone →
      attempts_run ix endpoint (attempt + 1) evs c →
      attempts_run ix endpoint attempt
        (EvFetch ix attempt (onboard_request endpoint) res :: evs) c.

(** The events of [onboardUser] from endpoint number [ix] on, with the
    value returned. *)
Inductive endpoints_run : nat → list string → list event → value → Prop :=
  | endpoints_exhausted ix :
      endpoints_run ix [] [] VNull
  | endpoints_return ix endpoint rest evs v :
      attempts_run ix endpoint 0 evs (Return v) →
      endpoints_run ix (endpoint :: rest) evs v
  | endpoints_next ix endpoint rest evs evs' v :
      attempts_run ix endpoint 0 evs Normal →
      endpoints_run (S ix) rest evs' v →
      endpoints_run ix (endpoint :: rest) (evs ++ evs') v.

(** The endpoint number of a [fetch]; a [sleep] belongs to none. *)
Definition fetch_ix (e : event) : option nat :=
  match e with
  | EvFetch ix _ _ _ => Some ix
  | EvSleep _ => None
  end.

Definition is_sleep (e : event) : bool :=
  match e with
  | EvSleep _ => true
  | EvFetch _ _ _ _ => false
  end.

(** After the [fetch] of endpoint number [i], the loop has moved on:
    [post], the events that follow, touch later endpoints only; they
    start with the first attempt on the next endpoint when there is one,
    and otherwise there are none and [onboardUser] returns [null].
    [ix] is the number of the first endpoint of [endpoints]. *)
Definition moves_on (ix : nat) (endpoints : list string) (i : nat)
    (post : list event) (v : value) : Prop :=
  Forall (fun e => ∀ j, fetch_ix e = Some j → (i < j)%nat) post
  ∧ match endpoints !! (S i - ix)%nat with
    | Some next =>
        ∃ res post', post = EvFetch (S i) 0 (onboard_request next) res :: post'
    | None => post = [] ∧ v = VNull
    end.

(** What follows a [fetch] of attempt [b] on endpoint number [i] whose
    answer is [res], in a run that returns [v]. *)
Definition follows (ix : nat) (endpoints : list string) (i : nat) (b : Z)
    (req : request) (res : fetch_result) (post : list event) (v : value) : Prop :=
  match verdict_of res with
  | Completed x => post = [] ∧ v = x
  | Abandon => moves_on ix endpoints i post v
  | NotDone =>
      if bool_decide (b < maxAttempts - 1)
      then ∃ res' post', post = EvSleep delayMs :: EvFetch i (b + 1) req res' :: post'
      else moves_on ix endpoints i post v
  end.

(** The answer has the documented shape: where
    [response.cloudaicompanionProject.id] is present it is a string. *)
Definition id_well_shaped (res : fetch_result) : bool :=
  match parsed res with
  | Some data =>
      implb (truthy (managedProjectId_of data))
            (is_string (managedProjectId_of data))
  | None => true
  end.

(** *** Counting the effects of a run *)

Definition count_fetches (evs : list event) : nat :=
  length (List.filter (fun e => negb (is_sleep e)) evs).

Definition count_sleeps (evs : list event) : nat :=
  length (List.filter is_sleep evs).

(** The requests sent to endpoint number [i]. *)
Definition count_fetches_at (i : nat) (evs : list event) : nat :=
  length (List.filter
            (fun e => match fetch_ix e with
                      | Some j => (j =? i)%nat
                      | None => false
                      end) evs).

(** The milliseconds spent in [sleep]. *)
Definition time_slept (evs : list event) : Z :=
  foldr (fun e t => match e with EvSleep ms => ms + t | EvFetch _ _ _ _ => t end)
    0 evs.

(** The attempt a [fetch] belongs to: endpoint number and attempt number. *)
Definition fetch_position (e : event) : option (nat * Z) :=
  match e with
  | EvFetch ix attempt _ _ => Some (ix, attempt)
  | EvSleep _ => None
  end.

(** For a network whose answers do not depend on the history: what the
    first endpoint, in list order, whose answer completes returns, and
    [null] when none does. *)
Fixpoint first_completion (endpoints : list string) : value :=
  match endpoints with
  | [] => VNull
  | endpoint :: rest =>
      match verdict_of (network [] (onboard_request endpoint)) with
      | Completed v => v
      | Abandon | NotDone => first_completion rest
      end
  end.

End OnboardUser.

(** The call [onboardUser(token, tierId, projectId)], with the default
    values of [maxAttempts] and [delayMs]. *)
Definition onboardUser_with_defaults
    (ONBOARD_USER_ENDPOINTS : list string)
    (ANTIGRAVITY_HEADERS : list (string * string))
    (network : world → request → fetch_result)
    (token tierId : string) (projectId : option string) : M value :=
  onboardUser ONBOARD_USER_ENDPOINTS ANTIGRAVITY_HEADERS network token tierId
    projectId DEFAULT_MAX_ATTEMPTS DEFAULT_DELAY_MS.

End Onboarding.

(* ===================================================================== *)
(** ** Session identity *)
(* ===================================================================== *)

Module Session.
Import JS.

(** *** [crypto.randomUUID()] and [Date.now().toString()] *)

Definition hex_digits : list ascii := list_ascii_of_string "0123456789abcdef".

Definition hex_digit (n : N) : ascii := nth (N.to_nat n) hex_digits "?"%char.

(** A byte as two lower-case hexadecimal digits. *)
Definition hex_byte (b : N) : string :=
  String (hex_digit (N.shiftr b 4)) (String (hex_digit (N.land b 15)) EmptyString).

Definition hex_string (bs : list N) : string :=
  fold_right (fun b s => hex_byte b +:+ s) EmptyString bs.

(** Byte [k] (0 is the most significant) of a 128-bit draw. *)
Definition random_byte (r : N) (k : nat) : N :=
  N.land (N.shiftr r (8 * N.of_nat (15 - k))) 255.

(** The sixteen bytes of a version 4 UUID: the draw with the version
    nibble forced to 4 and the variant bits to 10. *)
Definition uuid_v4_bytes (r : N) : list N :=
  alter (fun b => N.lor (N.land b 15) 64) 6%nat
    (alter (fun b => N.lor (N.land b 63) 128) 8%nat
       (random_byte r <$> seq 0 16)).

(** The 8-4-4-4-12 rendering. *)
Definition uuid_text (bs : list N) : string :=
  hex_string (take 4 bs) +:+ "-" +:+
  hex_string (take 2 (drop 4 bs)) +:+ "-" +:+
  hex_string (take 2 (drop 6 bs)) +:+ "-" +:+
  hex_string (take 2 (drop 8 bs)) +:+ "-" +:+
  hex_string (drop 10 bs).

Definition randomUUID (r : N) : string := uuid_text (uuid_v4_bytes r).

(** [Number.prototype.toString] on an integer: its decimal numeral (the
    values [Date.now()] can take stay far below the point where the
    exponent notation sets in). *)
Definition number_toString (n : Z) : string :=
  DecimalString.NilZero.string_of_int (Z.to_int n).

(** The inverse reading of a decimal numeral. *)
Definition parse_decimal (s : string) : option Z :=
  Z.of_int <$> DecimalString.NilZero.int_of_string s.

Definition is_lower_hex (c : ascii) : bool := existsb (Ascii.eqb c) hex_digits.

Definition is_digit (c : ascii) : bool :=
  existsb (Ascii.eqb c) (list_ascii_of_string "0123456789").

(** Canonical textual form of a UUID: 36 characters, hyphens at offsets
    8, 13, 18 and 23, lower-case hexadecimal digits elsewhere. *)
Definition canonical_char (i : nat) (c : ascii) : bool :=
  if bool_decide (i ∈ [8; 13; 18; 23]%nat) then Ascii.eqb c "-" else is_lower_hex c.

Definition is_canonical_uuid (s : string) : bool :=
  let cs := list_ascii_of_string s in
  (length cs =? 36)%nat && forallb id (imap canonical_char cs).

(** The shape of a session token: a canonical UUID immediately followed
    by the decimal numeral of an integer. *)
Definition token_format (t : string) : Prop :=
  ∃ r n, t = randomUUID r +:+ number_toString n
         ∧ is_canonical_uuid (randomUUID r) = true.

(** *** The store *)

(** The module-level [runtimeSessionStore], with the number of UUIDs drawn
    and of clock readings made so far. *)
Record world : Type := World {
  runtimeSessionStore : gmap string string;
  uuids_drawn : nat;
  clock_reads : nat
}.

(** [new Map()] at module load. *)
Definition initial_world : world :=
  {| runtimeSessionStore := ∅; uuids_drawn := 0; clock_reads := 0 |}.

Section Store.

(** The 128 random bits behind the [k]-th UUID and the value of the
    [k]-th reading of [Date.now()], in milliseconds since the epoch. *)
Variable entropy : nat → N.
Variable dateNow : nat → Z.

Definition generateBinaryStyleId (w : world) : string * world :=
  (randomUUID (entropy (uuids_drawn w))
     +:+ number_toString (dateNow (clock_reads w)),
   {| runtimeSessionStore := runtimeSessionStore w;
      uuids_drawn := S (uuids_drawn w);
      clock_reads := S (clock_reads w) |}).

(** [!accountEmail]: [undefined], [null] and the empty string. *)
Definition no_account (accountEmail : option string) : bool :=
  match accountEmail with
  | None => true
  | Some a => String.eqb a ""
  end.

Definition deriveSessionId (anthropicRequest : value)
    (accountEmail : option string) (w : world) : string * world :=
  match accountEmail with
  | None => generateBinaryStyleId w
  | Some account =>
      if String.eqb account "" then generateBinaryStyleId w
      else
        match runtimeSessionStore w !! account with
        | Some sessionId => (sessionId, w)
        | None =>
            let (newSessionId, w') := generateBinaryStyleId w in
            (newSessionId,
             {| runtimeSessionStore :=
                  <[account := newSessionId]> (runtimeSessionStore w');
                uuids_drawn := uuids_drawn w';
                clock_reads := clock_reads w' |})
        end
  end.

Definition clearSessionStore (w : world) : world :=
  {| runtimeSessionStore := ∅;
     uuids_drawn := uuids_drawn w;
     clock_reads := clock_reads w |}.

(** *** The store as a state machine *)

Inductive call : Type :=
  | Derive (anthropicRequest : value) (accountEmail : option string)
  | Clear.

Definition step (c : call) (w : world) : world :=
  match c with
  | Derive anthropicRequest accountEmail =>
      (deriveSessionId anthropicRequest accountEmail w).2
  | Clear => clearSessionStore w
  end.

Definition run (cs : list call) (w : world) : world :=
  fold_left (fun w c => step c w) cs w.

Definition is_clear (c : call) : bool :=
  match c with
  | Clear => true
  | Derive _ _ => false
  end.

(** The token generated when [i] tokens have been generated before. *)
Definition token_at (i : nat) : string :=
  randomUUID (entropy i) +:+ number_toString (dateNow i).

(** The accounts a sequence of calls stores a token for: those of its
    derivations that name a non-empty account. *)
Definition derived_accounts (calls : list call) : gset string :=
  foldr (fun c accounts =>
           match c with
           | Derive _ (Some account) =>
               if String.eqb account "" then accounts else {[account]} ∪ accounts
           | Derive _ None | Clear => accounts
           end) ∅ calls.

(** The first [n] tokens generated are pairwise different. *)
Definition tokens_distinct (n : nat) : Prop :=
  ∀ i j, (i < n)%nat → (j < n)%nat → token_at i = token_at j → i = j.

(** What holds of every world reached from the initial one: the two
    counters agree, and each cached token was generated earlier, for a
    non-empty account. *)
Definition store_invariant (w : world) : Prop :=
  clock_reads w = uuids_drawn w
  ∧ ∀ account sessionId,
      runtimeSessionStore w !! account = Some sessionId →
      account ≠ ""
      ∧ ∃ i, (i < uuids_drawn w)%nat ∧ sessionId = token_at i.

End Store.

End Session.

(* ===================================================================== *)
(** ** Concrete configurations *)
(* ===================================================================== *)

Module Examples.
Import JS Onboarding.

Definition endpoints : list string :=
  ["https://daily.example"; "https://prod.example"].

Definition product_headers : list (string * string) :=
  [("User-Agent", "antigravity")].

Definition ok_response (data : value) : fetch_result :=
  Resolved {| ok := true; status := 200; text := inr ""; json := inr data |}.

Definition server_error : fetch_result :=
  Resolved {| ok := false;
              status := 500;
              text := inr "Internal error";
              json := inl (Error "SyntaxError" "Unexpected token") |}.

(** [{done: true, response: {cloudaicompanionProject: {id: "X"}}}] *)
Definition done_with_X : value :=
  VObj [("done", VBool true);
        ("response", VObj [("cloudaicompanionProject", VObj [("id", VStr "X")])])].

(** [{done: false}] *)
Definition not_done : value := VObj [("done", VBool false)].

(** [{done: true, response: {cloudaicompanionProject: {id: 123}}}]: an
    answer whose identifier is a number. *)
Definition done_with_123 : value :=
  VObj [("done", VBool true);
        ("response", VObj [("cloudaicompanionProject", VObj [("id", VNum 123)])])].

(** A network that gives the same answer to every request. *)
Definition always (res : fetch_result) : world → request → fetch_result :=
  fun _ _ => res.

(** A network that answers the [k]-th [fetch] with the [k]-th element of
    a script, and rejects once the script is over. *)
Definition scripted (answers : list fetch_result) : world → request → fetch_result :=
  fun w _ =>
    nth (length (filter (fun e => is_sleep e = false) w)) answers
      (Rejected (Error "TypeError" "fetch failed")).

Definition request_to (endpoint : string) : request :=
  onboard_request product_headers "token" "PRO" (Some "my-project") endpoint.

(** Runs of [onboardUser] for tier PRO and project ["my-project"], three
    attempts per endpoint, five seconds apart. *)
Definition onboard (network : world → request → fetch_result) : M value :=
  onboardUser endpoints product_headers network "token" "PRO" (Some "my-project")
    3 5000.

(** A source of random bits and a clock for the session store. *)
Definition entropy (k : nat) : N :=
  (N.of_nat k + 1) * 0x0123456789abcdef0123456789abcdef.

Definition dateNow (k : nat) : Z := 1762117200000 + Z.of_nat k.

(** A random source that repeats itself, and a clock read twice within
    one millisecond. *)
Definition repeating_entropy (k : nat) : N := 0x0123456789abcdef0123456789abcdef.

Definition stopped_clock (k : nat) : Z := 1762117200000.

End Examples.

(* ===================================================================== *)
(** * Properties *)
(* ===================================================================== *)

(** ** Splitting a list around one of its elements *)

Module ListAux.

Lemma cons_eq_mid {A} (x : A) l pre e post :
  x :: l = pre ++ e :: post →
  (pre = [] ∧ x = e ∧ l = post) ∨ (∃ pre', pre = x :: pre' ∧ l = pre' ++ e :: post).
Proof. destruct pre as [|y pre]; simpl; intros [= -> ->]; eauto. Qed.

Lemma app_eq_mid {A} (l1 l2 pre : list A) e post :
  l1 ++ l2 = pre ++ e :: post →
  (∃ post1, l1 = pre ++ e :: post1 ∧ post = post1 ++ l2)
  ∨ (∃ pre2, pre = l1 ++ pre2 ∧ l2 = pre2 ++ e :: post).
Proof.
  revert pre. induction l1 as [|x l1 IH]; simpl; intros pre H.
  - right. by exists pre.
  - destruct pre as [|y pre]; simpl in H; injection H as -> H.
    + left. by eexists.
    + apply IH in H as [(p1 & -> & ->)|(p2 & -> & ->)]; [left|right]; eauto.
Qed.

Lemma nil_eq_mid {A} (pre : list A) e post : [] = pre ++ e :: post → False.
Proof. by destruct pre. Qed.

Lemma singleton_eq_mid {A} (x : A) pre e post :
  [x] = pre ++ e :: post → pre = [] ∧ x = e ∧ post = [].
Proof.
  intros H. apply cons_eq_mid in H as [(-> & -> & <-)|(pre' & -> & H)]; [done|].
  by apply nil_eq_mid in H.
Qed.

End ListAux.

Module JSFacts.
Import JS.

Lemma truthy_not_nullish v : truthy v = true → nullish v = false.
Proof. by destruct v. Qed.

Lemma strictly_true_truthy v : strictly_true v = true → truthy v = true.
Proof. by destruct v as [| |[]| | | |]. Qed.

Lemma opt_member_own v k : nullish v = false → opt_member v k = own v k.
Proof. unfold opt_member. by intros ->. Qed.

End JSFacts.

(** ** Tier selection *)

Module TiersFacts.
Import JS Tiers JSFacts.

Lemma first_default_none tiers :
  Forall (fun t => flag_truthy t = false) tiers → first_default tiers = None.
Proof.
  induction 1 as [|t ts Ht _ IH]; simpl; [done|].
  unfold flag_truthy in Ht. by rewrite Ht.
Qed.

Lemma first_default_split before d after :
  Forall (fun t => flag_truthy t = false) before →
  flag_truthy d = true →
  first_default (before ++ d :: after) = Some (own d "id").
Proof.
  intros Hb Hd. induction Hb as [|t ts Ht _ IH]; simpl.
  - unfold flag_truthy in Hd. by rewrite Hd.
  - unfold flag_truthy in Ht. by rewrite Ht.
Qed.

Lemma flag_boolean_strict t :
  flag_boolean t = true →
  flag_truthy t = strictly_true (opt_member t "isDefault").
Proof.
  unfold flag_boolean, flag_truthy.
  by destruct (opt_member t "isDefault") as [| |[]| | | |].
Qed.

Lemma flag_truthy_id t : flag_truthy t = true → own t "id" = opt_member t "id".
Proof.
  unfold flag_truthy. intros Ht. symmetry. apply opt_member_own.
  unfold opt_member in Ht. by destruct (nullish t).
Qed.

(** With boolean flags the loop finds the [id] of the element that
    [List.find] selects with [isDefault === true]. *)
Lemma first_default_find tiers :
  Forall (fun t => flag_boolean t = true) tiers →
  first_default tiers =
  (fun t => opt_member t "id")
    <$> List.find (fun t => strictly_true (opt_member t "isDefault")) tiers.
Proof.
  induction 1 as [|t ts Ht _ IH]; simpl; [done|].
  pose proof (flag_boolean_strict _ Ht) as Hs. unfold flag_truthy in Hs.
  rewrite <- Hs. destruct (truthy (opt_member t "isDefault")) eqn:Hflag; [|done].
  simpl. f_equal. by apply flag_truthy_id.
Qed.

(** C7, as the code has it.  For an absent or empty list
    [getDefaultTierId] returns [undefined].  For a non-empty list it
    returns the [id] of the first element whose [isDefault] is truthy when
    there is one, and the [id] of the first element otherwise; where the
    flags are booleans (or missing) this is the [id] of the element that
    the rule "first with [isDefault === true], else the first" designates. *)
Theorem getDefaultTierId_rule :
  getDefaultTierId None = VUndefined
  ∧ getDefaultTierId (Some []) = VUndefined
  ∧ (∀ before d after,
       Forall (fun t => flag_truthy t = false) before →
       flag_truthy d = true →
       getDefaultTierId (Some (before ++ d :: after)) = own d "id")
  ∧ (∀ t rest,
       Forall (fun t => flag_truthy t = false) (t :: rest) →
       getDefaultTierId (Some (t :: rest)) = opt_member t "id")
  ∧ (∀ t rest,
       Forall (fun t => flag_boolean t = true) (t :: rest) →
       getDefaultTierId (Some (t :: rest)) =
       opt_member (defaultTier_as_specified (Some (t :: rest))) "id").
Proof.
  split; [done|]. split; [done|]. split; [|split].
  - intros before d after Hb Hd. unfold getDefaultTierId.
    rewrite (first_default_split _ _ _ Hb Hd).
    by destruct before.
  - intros t rest Hall. unfold getDefaultTierId.
    by rewrite (first_default_none _ Hall).
  - intros t rest Hall. unfold getDefaultTierId, defaultTier_as_specified.
    rewrite (first_default_find _ Hall).
    by destruct (List.find _ (t :: rest)).
Qed.

Lemma getDefaultTierId_rule_witness :
  Forall (fun t => flag_truthy t = false) [tier "FREE" false]
  ∧ flag_truthy (tier "PRO" true) = true
  ∧ getDefaultTierId (Some ([tier "FREE" false] ++ tier "PRO" true :: []))
    = VStr "PRO".
Proof.
  assert (Forall (fun t => flag_truthy t = false) [tier "FREE" false]) as Hbefore
    by (repeat constructor).
  split; [exact Hbefore|]. split; [reflexivity|].
  destruct getDefaultTierId_rule as (_ & _ & Hfirst & _).
  exact (Hfirst [tier "FREE" false] (tier "PRO" true) [] Hbefore eq_refl).
Defined.

(** C7 as worded does not hold.  From
    [[{id: "FREE", isDefault: false}, {id: "PRO", isDefault: true}]] the
    code returns the string ["PRO"], not the second descriptor.  And from
    [[{id: "A", isDefault: 1}, {id: "B", isDefault: true}]] it returns
    ["A"], the [id] of the first element with a truthy flag, although the
    element with [isDefault === true] is the second one. *)
Lemma getDefaultTierId_not_as_specified :
  (getDefaultTierId (Some [tier "FREE" false; tier "PRO" true]) = VStr "PRO"
   ∧ defaultTier_as_specified (Some [tier "FREE" false; tier "PRO" true])
     = tier "PRO" true
   ∧ getDefaultTierId (Some [tier "FREE" false; tier "PRO" true])
     ≠ defaultTier_as_specified (Some [tier "FREE" false; tier "PRO" true]))
  ∧ (let tiers := [VObj [("id", VStr "A"); ("isDefault", VNum 1)]; tier "B" true] in
     getDefaultTierId (Some tiers) = VStr "A"
     ∧ defaultTier_as_specified (Some tiers) = tier "B" true
     ∧ getDefaultTierId (Some tiers) ≠ defaultTier_as_specified (Some tiers)
     ∧ getDefaultTierId (Some tiers)
       ≠ opt_member (defaultTier_as_specified (Some tiers)) "id").
Proof.
  split.
  - split; [done|]. split; [done|]. discriminate.
  - split; [done|]. split; [done|]. split; discriminate.
Qed.

End TiersFacts.

(** ** The onboarding handshake *)

Module OnboardingFacts.
Import JS Onboarding.

Section Runs.

Context (ONBOARD_USER_ENDPOINTS : list string)
        (ANTIGRAVITY_HEADERS : list (string * string))
        (network : world → request → fetch_result)
        (token tierId : string) (projectId : option string)
        (maxAttempts delayMs : Z).

Abbreviation onboard_request := (onboard_request ANTIGRAVITY_HEADERS token tierId projectId).
Abbreviation attempt_body :=
  (attempt_body ANTIGRAVITY_HEADERS network token tierId projectId maxAttempts delayMs).
Abbreviation for_attempts :=
  (for_attempts ANTIGRAVITY_HEADERS network token tierId projectId maxAttempts delayMs).
Abbreviation for_endpoints :=
  (for_endpoints ANTIGRAVITY_HEADERS network token tierId projectId maxAttempts delayMs).
Abbreviation onboardUser :=
  (onboardUser ONBOARD_USER_ENDPOINTS ANTIGRAVITY_HEADERS network token tierId
     projectId maxAttempts delayMs).
Abbreviation verdict_of := (verdict_of projectId).
Abbreviation requestBody := (requestBody tierId projectId).
Abbreviation projectId_value := (projectId_value projectId).
Abbreviation supplied := (supplied projectId).
Abbreviation attempts_run :=
  (attempts_run ANTIGRAVITY_HEADERS token tierId projectId maxAttempts delayMs).
Abbreviation endpoints_run :=
  (endpoints_run ANTIGRAVITY_HEADERS token tierId projectId maxAttempts delayMs).
Abbreviation moves_on := (moves_on ANTIGRAVITY_HEADERS token tierId projectId).
Abbreviation follows :=
  (follows ANTIGRAVITY_HEADERS token tierId projectId maxAttempts delayMs).

(** One pass through the [try]/[catch] of the polling loop, in terms of
    the verdict on the answer received. *)
Lemma attempt_step ix endpoint attempt w :
  try_catch (attempt_body ix endpoint attempt) on_error w =
  let res := network w (onboard_request endpoint) in
  let w1 := w ++ [EvFetch ix attempt (onboard_request endpoint) res] in
  match verdict_of res with
  | Completed v => (Val (Return v), w1)
  | Abandon => (Val Break, w1)
  | NotDone =>
      if attempt <? maxAttempts - 1
      then (Val Normal, w1 ++ [EvSleep delayMs])
      else (Val Normal, w1)
  end.
Proof.
  unfold try_catch, Onboarding.attempt_body, bind, fetch, Onboarding.verdict_of, parsed.
  cbv zeta.
  destruct (network w (onboard_request endpoint)) as [e|[okb st tx js]]; simpl; [done|].
  destruct okb; simpl.
  - destruct js as [e|data]; simpl; [done|].
    unfold member, managedProjectId_of, done_of.
    destruct (nullish data) eqn:Hn; simpl; [done|].
    destruct (truthy (own data "done") && truthy (managed_id_of (own data "response")));
      simpl; [done|].
    destruct (truthy (own data "done") && truthy projectId_value);
      simpl; [done|].
    by destruct (attempt <? maxAttempts - 1).
  - by destruct tx.
Qed.

(** The polling loop of one endpoint never throws, only adds events, and
    its events have the shape [attempts_run] describes. *)
Lemma for_attempts_run ix endpoint attempts :
  ∀ attempt w,
    attempts = seqZ attempt (maxAttempts - attempt) →
    ∃ c evs,
      for_attempts ix endpoint attempts w = (Val c, w ++ evs)
      ∧ attempts_run ix endpoint attempt evs c.
Proof.
  induction attempts as [|a rest IH]; intros attempt w Hseq.
  - exists Normal, []. rewrite app_nil_r. split; [done|].
    constructor. apply (f_equal length) in Hseq.
    rewrite length_seqZ in Hseq. simpl in Hseq. lia.
  - assert (0 < maxAttempts - attempt) as Hlt.
    { apply (f_equal length) in Hseq. rewrite length_seqZ in Hseq.
      simpl in Hseq. lia. }
    rewrite seqZ_cons in Hseq by done. injection Hseq as -> Hrest.
    replace (Z.pred (maxAttempts - attempt))
      with (maxAttempts - Z.succ attempt) in Hrest by lia.
    replace (Z.succ attempt) with (attempt + 1) in Hrest by lia.
    simpl. unfold bind at 1. rewrite attempt_step. cbv zeta.
    set (req := onboard_request endpoint).
    destruct (verdict_of (network w req)) as [v| |] eqn:Hv.
    + exists (Return v), [EvFetch ix attempt req (network w req)].
      split; [done|]. apply attempts_completed; [lia|done].
    + exists Normal, [EvFetch ix attempt req (network w req)].
      split; [done|]. apply attempts_abandoned; [lia|done].
    + destruct (Z.ltb_spec attempt (maxAttempts - 1)) as [Hlast|Hlast].
      * destruct (IH (attempt + 1)
          ((w ++ [EvFetch ix attempt req (network w req)]) ++ [EvSleep delayMs])
          Hrest) as (c & evs & Hrun & Hshape).
        exists c, (EvFetch ix attempt req (network w req) :: EvSleep delayMs :: evs).
        split.
        -- rewrite Hrun. by rewrite <- !app_assoc.
        -- by apply attempts_retry.
      * destruct (IH (attempt + 1)
          (w ++ [EvFetch ix attempt req (network w req)]) Hrest)
          as (c & evs & Hrun & Hshape).
        exists c, (EvFetch ix attempt req (network w req) :: evs).
        split.
        -- rewrite Hrun. by rewrite <- !app_assoc.
        -- apply attempts_last; [lia|done|done].
Qed.

Lemma attempts_run_completion ix endpoint attempt evs c :
  attempts_run ix endpoint attempt evs c → c = Normal ∨ ∃ v, c = Return v.
Proof. induction 1; eauto. Qed.

(** The same for the loop over the endpoints. *)
Lemma for_endpoints_run endpoints :
  ∀ ix w,
    ∃ v evs,
      for_endpoints ix endpoints w = (Val v, w ++ evs)
      ∧ endpoints_run ix endpoints evs v.
Proof.
  induction endpoints as [|endpoint rest IH]; intros ix w.
  - exists VNull, []. rewrite app_nil_r. split; [done|constructor].
  - destruct (for_attempts_run ix endpoint (seqZ 0 maxAttempts) 0 w)
      as (c & evs & Hrun & Hshape).
    { by rewrite Z.sub_0_r. }
    simpl. unfold bind at 1. rewrite Hrun.
    destruct (attempts_run_completion _ _ _ _ _ Hshape) as [->|[v ->]].
    + destruct (IH (S ix) (w ++ evs)) as (v & evs' & Hrest & Hshape').
      exists v, (evs ++ evs'). split.
      * rewrite Hrest. by rewrite <- app_assoc.
      * by eapply endpoints_next.
    + exists v, evs. split; [done|]. by apply endpoints_return.
Qed.

(** [onboardUser] always returns a value; its events are an
    [endpoints_run] over the configured endpoints. *)
Lemma onboardUser_run w :
  ∃ v evs,
    onboardUser w = (Val v, w ++ evs)
    ∧ endpoints_run 0 ONBOARD_USER_ENDPOINTS evs v.
Proof. apply for_endpoints_run. Qed.

Lemma onboardUser_emitted w v evs :
  onboardUser w = (Val v, w ++ evs) →
  result_of onboardUser w = Val v ∧ emitted onboardUser w = evs.
Proof.
  intros H. unfold result_of, emitted. rewrite H. simpl.
  by rewrite drop_app_length.
Qed.

(** *** The shape of the events of one endpoint *)

Lemma attempts_run_over ix endpoint attempt evs c :
  attempts_run ix endpoint attempt evs c →
  maxAttempts ≤ attempt → evs = [] ∧ c = Normal.
Proof. inversion 1; subst; intros; (done || lia). Qed.

Lemma attempts_run_head ix endpoint attempt evs c :
  attempts_run ix endpoint attempt evs c →
  attempt < maxAttempts →
  ∃ res tl, evs = EvFetch ix attempt (onboard_request endpoint) res :: tl.
Proof. inversion 1; subst; intros; (lia || eauto). Qed.

(** Inside the loop of one endpoint: what follows each [fetch]. *)
Lemma attempts_run_fetch ix endpoint attempt evs c :
  attempts_run ix endpoint attempt evs c →
  ∀ pre i b req res post,
    evs = pre ++ EvFetch i b req res :: post →
    i = ix ∧ req = onboard_request endpoint ∧ attempt ≤ b < maxAttempts
    ∧ match verdict_of res with
      | Completed x => post = [] ∧ c = Return x
      | Abandon => post = [] ∧ c = Normal
      | NotDone =>
          if bool_decide (b < maxAttempts - 1)
          then ∃ res' post',
                 post = EvSleep delayMs :: EvFetch i (b + 1) req res' :: post'
          else post = [] ∧ c = Normal
      end.
Proof.
  induction 1 as [a Ha|a res0 v Ha Hv|a res0 Ha Hv|a res0 evs c Ha Hv Hrun IH
                 |a res0 evs c Ha Hv Hrun IH];
    intros pre i b req res post Heq.
  - by apply ListAux.nil_eq_mid in Heq.
  - apply ListAux.singleton_eq_mid in Heq as (-> & [= <- <- <- <-] & ->).
    rewrite Hv. repeat split; (done || lia).
  - apply ListAux.singleton_eq_mid in Heq as (-> & [= <- <- <- <-] & ->).
    rewrite Hv. repeat split; (done || lia).
  - apply ListAux.cons_eq_mid in Heq as [(-> & [= <- <- <- <-] & <-)|(pre' & -> & Heq)].
    + rewrite Hv, bool_decide_true by done.
      destruct (attempts_run_head _ _ _ _ _ Hrun) as (res' & tl & ->); [lia|].
      repeat split; (lia || eauto).
    + apply ListAux.cons_eq_mid in Heq as [(_ & [=] & _)|(pre'' & -> & Heq)].
      destruct (IH _ _ _ _ _ _ Heq) as (-> & -> & Hb & Hfollow).
      repeat split; (done || lia).
  - destruct (attempts_run_over _ _ _ _ _ Hrun) as [-> ->]; [lia|].
    apply ListAux.singleton_eq_mid in Heq as (-> & [= <- <- <- <-] & ->).
    rewrite Hv, bool_decide_false by lia.
    repeat split; (done || lia).
Qed.

(** Inside the loop of one endpoint, a [sleep] sits between two
    consecutive attempts. *)
Lemma attempts_run_sleep ix endpoint attempt evs c :
  attempts_run ix endpoint attempt evs c →
  ∀ pre ms post,
    evs = pre ++ EvSleep ms :: post →
    ∃ pre' b res res' post',
      pre = pre' ++ [EvFetch ix b (onboard_request endpoint) res]
      ∧ post = EvFetch ix (b + 1) (onboard_request endpoint) res' :: post'
      ∧ b < maxAttempts - 1 ∧ verdict_of res = NotDone ∧ ms = delayMs.
Proof.
  induction 1 as [a Ha|a res0 v Ha Hv|a res0 Ha Hv|a res0 evs c Ha Hv Hrun IH
                 |a res0 evs c Ha Hv Hrun IH];
    intros pre ms post Heq.
  - by apply ListAux.nil_eq_mid in Heq.
  - by apply ListAux.singleton_eq_mid in Heq as (_ & [=] & _).
  - by apply ListAux.singleton_eq_mid in Heq as (_ & [=] & _).
  - apply ListAux.cons_eq_mid in Heq as [(_ & [=] & _)|(pre' & -> & Heq)].
    apply ListAux.cons_eq_mid in Heq as [(-> & [= <-] & <-)|(pre'' & -> & Heq)].
    + destruct (attempts_run_head _ _ _ _ _ Hrun) as (res' & tl & ->); [lia|].
      by exists [], a, res0, res', tl.
    + destruct (IH _ _ _ Heq) as (p & b & res & res' & post' & -> & -> & Hb).
      by exists (EvFetch ix a (onboard_request endpoint) res0 :: EvSleep delayMs :: p),
        b, res, res', post'.
  - destruct (attempts_run_over _ _ _ _ _ Hrun) as [-> ->]; [lia|].
    by apply ListAux.singleton_eq_mid in Heq as (_ & [=] & _).
Qed.

(** A loop left by [return] ends on a completed poll. *)
Lemma attempts_run_return ix endpoint attempt evs v :
  attempts_run ix endpoint attempt evs (Return v) →
  ∃ pre b res,
    evs = pre ++ [EvFetch ix b (onboard_request endpoint) res]
    ∧ verdict_of res = Completed v.
Proof.
  remember (Return v) as c eqn:Hc.
  induction 1 as [a Ha|a res0 v0 Ha Hv|a res0 Ha Hv|a res0 evs c Ha Hv Hrun IH
                 |a res0 evs c Ha Hv Hrun IH]; try done.
  - injection Hc as ->. by exists [], a, res0.
  - destruct (IH Hc) as (pre & b & res & -> & Hres).
    by exists (EvFetch ix a (onboard_request endpoint) res0 :: EvSleep delayMs :: pre),
      b, res.
  - destruct (IH Hc) as (pre & b & res & -> & Hres).
    by exists (EvFetch ix a (onboard_request endpoint) res0 :: pre), b, res.
Qed.

(** *** The shape of the events of a whole run *)

Lemma attempts_run_ix ix endpoint attempt evs c :
  attempts_run ix endpoint attempt evs c →
  Forall (fun e => ∀ j, fetch_ix e = Some j → j = ix) evs.
Proof.
  induction 1; repeat constructor; simpl; try congruence; done.
Qed.

Lemma endpoints_run_nil ix evs v :
  endpoints_run ix [] evs v → evs = [] ∧ v = VNull.
Proof. by inversion 1. Qed.

Lemma endpoints_run_head ix endpoint rest evs v :
  endpoints_run ix (endpoint :: rest) evs v →
  0 < maxAttempts →
  ∃ res tl, evs = EvFetch ix 0 (onboard_request endpoint) res :: tl.
Proof.
  inversion 1 as [|? ? ? ? ? Hrun|? ? ? evs1 evs2 ? Hrun Hrest]; subst; intros Hmax.
  - by apply (attempts_run_head _ _ _ _ _ Hrun).
  - destruct (attempts_run_head _ _ _ _ _ Hrun Hmax) as (res & tl & ->).
    by exists res, (tl ++ evs2).
Qed.

Lemma endpoints_run_ge ix endpoints evs v :
  endpoints_run ix endpoints evs v →
  Forall (fun e => ∀ j, fetch_ix e = Some j → (ix ≤ j)%nat) evs.
Proof.
  induction 1 as [|ix endpoint rest evs v Hrun
                 |ix endpoint rest evs evs' v Hrun Hrest IH].
  - constructor.
  - eapply Forall_impl; [by eapply attempts_run_ix|].
    intros e He j Hj. rewrite (He j Hj). lia.
  - apply Forall_app. split.
    + eapply Forall_impl; [by eapply attempts_run_ix|].
      intros e He j Hj. rewrite (He j Hj). lia.
    + eapply Forall_impl; [exact IH|].
      intros e He j Hj. specialize (He j Hj). lia.
Qed.

(** When the loop of an endpoint is left without [return], the run moves
    on to the next endpoint. *)
Lemma moves_on_next ix endpoint rest evs' v :
  endpoints_run (S ix) rest evs' v →
  0 < maxAttempts →
  moves_on ix (endpoint :: rest) ix evs' v.
Proof.
  intros Hrest Hmax. split.
  - eapply Forall_impl; [by eapply endpoints_run_ge|].
    intros e He j Hj. specialize (He j Hj). lia.
  - replace (S ix - ix)%nat with 1%nat by lia. simpl.
    destruct rest as [|next rest]; simpl.
    + by apply endpoints_run_nil in Hrest.
    + destruct (endpoints_run_head _ _ _ _ _ Hrest Hmax) as (res & tl & ->).
      by exists res, tl.
Qed.

Lemma moves_on_shift ix endpoint rest i post v :
  (S ix ≤ i)%nat →
  moves_on (S ix) rest i post v →
  moves_on ix (endpoint :: rest) i post v.
Proof.
  intros Hi [Hlater Hnext]. split; [done|].
  by replace (S i - ix)%nat with (S (S i - S ix)) by lia.
Qed.

(** The events of a run, [fetch] by [fetch]: which endpoint and attempt
    it belongs to, and what follows it. *)
Lemma endpoints_run_fetch ix endpoints evs v :
  endpoints_run ix endpoints evs v →
  ∀ pre i b req res post,
    evs = pre ++ EvFetch i b req res :: post →
    (ix ≤ i)%nat
    ∧ (∃ endpoint,
         endpoints !! (i - ix)%nat = Some endpoint ∧ req = onboard_request endpoint)
    ∧ 0 ≤ b < maxAttempts
    ∧ follows ix endpoints i b req res post v.
Proof.
  induction 1 as [|ix endpoint rest evs v Hrun
                 |ix endpoint rest evs evs' v Hrun Hrest IH];
    intros pre i b req res post Heq.
  - by apply ListAux.nil_eq_mid in Heq.
  - destruct (attempts_run_fetch _ _ _ _ _ Hrun _ _ _ _ _ _ Heq)
      as (-> & -> & Hb & Hfollow).
    split; [done|]. split.
    { exists endpoint. by rewrite Nat.sub_diag. }
    split; [done|]. unfold Onboarding.follows.
    destruct (verdict_of res) as [x| |].
    + destruct Hfollow as [-> [= ->]]. done.
    + by destruct Hfollow as [_ [=]].
    + case_bool_decide; [done|]. by destruct Hfollow as [_ [=]].
  - apply ListAux.app_eq_mid in Heq as [(post1 & Heq & ->)|(pre2 & -> & Heq)].
    + destruct (attempts_run_fetch _ _ _ _ _ Hrun _ _ _ _ _ _ Heq)
        as (-> & -> & Hb & Hfollow).
      split; [done|]. split.
      { exists endpoint. by rewrite Nat.sub_diag. }
      split; [done|]. unfold Onboarding.follows.
      destruct (verdict_of res) as [x| |].
      * by destruct Hfollow as [_ [=]].
      * destruct Hfollow as [-> _]. apply moves_on_next; [done|lia].
      * case_bool_decide.
        -- destruct Hfollow as (res' & post' & ->).
           by exists res', (post' ++ evs').
        -- destruct Hfollow as [-> _]. apply moves_on_next; [done|lia].
    + destruct (IH _ _ _ _ _ _ Heq) as (Hi & (e & He & ->) & Hb & Hfollow).
      split; [lia|]. split.
      { exists e. by replace (i - ix)%nat with (S (i - S ix)) by lia. }
      split; [done|]. unfold Onboarding.follows in *.
      destruct (verdict_of res) as [x| |]; [done| |].
      * by apply moves_on_shift.
      * case_bool_decide; [done|]. by apply moves_on_shift.
Qed.

(** In a whole run too, a [sleep] sits between two consecutive attempts
    on one endpoint. *)
Lemma endpoints_run_sleep ix endpoints evs v :
  endpoints_run ix endpoints evs v →
  ∀ pre ms post,
    evs = pre ++ EvSleep ms :: post →
    ∃ pre' i b req res res' post',
      pre = pre' ++ [EvFetch i b req res]
      ∧ post = EvFetch i (b + 1) req res' :: post'
      ∧ b < maxAttempts - 1 ∧ verdict_of res = NotDone ∧ ms = delayMs.
Proof.
  induction 1 as [|ix endpoint rest evs v Hrun
                 |ix endpoint rest evs evs' v Hrun Hrest IH];
    intros pre ms post Heq.
  - by apply ListAux.nil_eq_mid in Heq.
  - destruct (attempts_run_sleep _ _ _ _ _ Hrun _ _ _ Heq)
      as (pre' & b & res & res' & post' & -> & -> & Hb).
    by exists pre', ix, b, (onboard_request endpoint), res, res', post'.
  - apply ListAux.app_eq_mid in Heq as [(post1 & Heq & ->)|(pre2 & -> & Heq)].
    + destruct (attempts_run_sleep _ _ _ _ _ Hrun _ _ _ Heq)
        as (pre' & b & res & res' & post' & -> & -> & Hb).
      by exists pre', ix, b, (onboard_request endpoint), res, res', (post' ++ evs').
    + destruct (IH _ _ _ Heq)
        as (pre' & i & b & req & res & res' & post' & -> & -> & Hb).
      exists (evs ++ pre'), i, b, req, res, res', post'.
      by rewrite <- app_assoc.
Qed.

(** A run returns [null], or what its last poll completed with. *)
Lemma endpoints_run_result ix endpoints evs v :
  endpoints_run ix endpoints evs v →
  v = VNull
  ∨ ∃ pre i b req res,
      evs = pre ++ [EvFetch i b req res] ∧ verdict_of res = Completed v.
Proof.
  induction 1 as [|ix endpoint rest evs v Hrun
                 |ix endpoint rest evs evs' v Hrun Hrest IH].
  - by left.
  - right. destruct (attempts_run_return _ _ _ _ _ Hrun) as (pre & b & res & -> & Hv).
    by exists pre, ix, b, (onboard_request endpoint), res.
  - destruct IH as [->|(pre & i & b & req & res & -> & Hv)]; [by left|right].
    exists (evs ++ pre), i, b, req, res. by rewrite <- app_assoc.
Qed.

Lemma onboardUser_shape w :
  ∃ v,
    result_of onboardUser w = Val v
    ∧ endpoints_run 0 ONBOARD_USER_ENDPOINTS (emitted onboardUser w) v.
Proof.
  destruct (onboardUser_run w) as (v & evs & Hrun & Hshape).
  destruct (onboardUser_emitted _ _ _ Hrun) as [-> ->]. by exists v.
Qed.

(** *** Verdicts *)

Lemma supplied_truthy : supplied ↔ truthy projectId_value = true.
Proof.
  unfold Onboarding.supplied, Onboarding.projectId_value. split.
  - intros (p & -> & Hp). simpl. by destruct (String.eqb_spec p "").
  - destruct projectId as [p|]; simpl; [|done].
    destruct (String.eqb_spec p ""); [done|]. by exists p.
Qed.

Lemma own_truthy_not_nullish data k :
  truthy (own data k) = true → nullish data = false.
Proof. by destruct data. Qed.

Lemma verdict_failure res :
  is_transport_failure res = true → verdict_of res = Abandon.
Proof.
  unfold Onboarding.verdict_of. destruct res as [e|[okb st tx js]]; simpl; [done|].
  by destruct okb.
Qed.

Lemma verdict_managed res data :
  parsed res = Some data →
  truthy (done_of data) = true →
  truthy (managedProjectId_of data) = true →
  verdict_of res = Completed (managedProjectId_of data).
Proof.
  intros Hp Hd Hm. unfold Onboarding.verdict_of. rewrite Hp.
  by rewrite (own_truthy_not_nullish _ _ Hd), Hd, Hm.
Qed.

Lemma verdict_fallback res data :
  parsed res = Some data →
  truthy (done_of data) = true →
  truthy (managedProjectId_of data) = false →
  truthy projectId_value = true →
  verdict_of res = Completed projectId_value.
Proof.
  intros Hp Hd Hm Hpid. unfold Onboarding.verdict_of. rewrite Hp.
  by rewrite (own_truthy_not_nullish _ _ Hd), Hd, Hm, Hpid.
Qed.

(** A completion returns a non-empty project identifier: the managed one
    of the answer, or else the caller's. *)
Lemma verdict_completed res v :
  verdict_of res = Completed v →
  ∃ data,
    parsed res = Some data ∧ truthy (done_of data) = true
    ∧ truthy v = true
    ∧ (v = managedProjectId_of data
       ∨ truthy (managedProjectId_of data) = false ∧ v = projectId_value).
Proof.
  unfold Onboarding.verdict_of. destruct (parsed res) as [data|]; [|done].
  destruct (nullish data); [done|].
  destruct (truthy (done_of data)) eqn:Hd; simpl; [|done].
  destruct (truthy (managedProjectId_of data)) eqn:Hm.
  - intros [= <-]. exists data. eauto.
  - destruct (truthy projectId_value) eqn:Hpid; [|done].
    intros [= <-]. exists data. eauto 10.
Qed.

(** *** The claims about [onboardUser] *)

(** C1.  Take any poll made by a run of [onboardUser] that succeeded and
    whose parsed answer has a truthy [done] (in particular [done: true]).
    If the answer carries a managed project identifier at
    [response.cloudaicompanionProject.id], the run returns that identifier
    and this poll is its last event: no attempt, sleep or endpoint follows.
    If it carries none and the caller supplied a [projectId], the run
    returns that [projectId], again at once.  The first case does not look
    at [projectId], so the managed identifier takes precedence. *)
Theorem onboardUser_completion w pre i b req res post data :
  emitted onboardUser w = pre ++ EvFetch i b req res :: post →
  parsed res = Some data →
  truthy (done_of data) = true →
  (truthy (managedProjectId_of data) = true →
     result_of onboardUser w = Val (managedProjectId_of data) ∧ post = [])
  ∧ (truthy (managedProjectId_of data) = false →
     ∀ p, projectId = Some p → p ≠ "" →
     result_of onboardUser w = Val (VStr p) ∧ post = []).
Proof.
  intros Hev Hp Hd.
  destruct (onboardUser_shape w) as (v & Hres & Hshape).
  destruct (endpoints_run_fetch _ _ _ _ Hshape _ _ _ _ _ _ Hev)
    as (_ & _ & _ & Hfollow).
  unfold Onboarding.follows in Hfollow. split.
  - intros Hm. rewrite (verdict_managed _ _ Hp Hd Hm) in Hfollow.
    destruct Hfollow as [-> ->]. by rewrite Hres.
  - intros Hm p Hpid Hne.
    assert (truthy projectId_value = true) as Ht.
    { apply supplied_truthy. by exists p. }
    rewrite (verdict_fallback _ _ Hp Hd Hm Ht) in Hfollow.
    destruct Hfollow as [-> ->]. rewrite Hres.
    unfold Onboarding.projectId_value. by rewrite Hpid.
Qed.

(** C2.  Take any attempt [b] on endpoint number [i] of a run whose
    transport call failed ([fetch] rejected, or the status was not a
    success).  The run does not throw.  Every later [fetch] goes to an
    endpoint further down the list, so attempts [b+1 ..] on endpoint [i]
    are never made; the very next event is the first attempt on the next
    endpoint when the list has one, and otherwise the run is over and
    returns [null]. *)
Theorem onboardUser_transport_failure w pre i b req res post :
  emitted onboardUser w = pre ++ EvFetch i b req res :: post →
  is_transport_failure res = true →
  ∃ v,
    result_of onboardUser w = Val v
    ∧ (∃ endpoint,
         ONBOARD_USER_ENDPOINTS !! i = Some endpoint
         ∧ req = onboard_request endpoint)
    ∧ Forall (fun e => ∀ j, fetch_ix e = Some j → (i < j)%nat) post
    ∧ match ONBOARD_USER_ENDPOINTS !! S i with
      | Some next =>
          ∃ res' post', post = EvFetch (S i) 0 (onboard_request next) res' :: post'
      | None => post = [] ∧ v = VNull
      end.
Proof.
  intros Hev Hfail.
  destruct (onboardUser_shape w) as (v & Hres & Hshape).
  destruct (endpoints_run_fetch _ _ _ _ Hshape _ _ _ _ _ _ Hev)
    as (_ & Hep & _ & Hfollow).
  unfold Onboarding.follows in Hfollow.
  rewrite (verdict_failure _ Hfail) in Hfollow.
  destruct Hfollow as [Hlater Hnext].
  rewrite Nat.sub_0_r in Hep, Hnext.
  by exists v.
Qed.

(** C3, as the code has it.  Whatever the inputs, the configuration and
    the behaviour of the network, [onboardUser] returns a value and throws
    nothing.  The value is [null], or a truthy identifier taken from the
    last poll of the run, which succeeded with a truthy [done]: what that
    answer has at [response.cloudaicompanionProject.id], returned as
    received whatever its type, or, when the answer has nothing there, the
    caller's non-empty [projectId].  A run in which no poll completes
    returns [null].  When the identifiers in the answers are strings, the
    value is a string or [null]. *)
Theorem onboardUser_outcomes w :
  ∃ v,
    result_of onboardUser w = Val v
    ∧ (v = VNull
       ∨ ∃ pre i b req res data,
           emitted onboardUser w = pre ++ [EvFetch i b req res]
           ∧ parsed res = Some data
           ∧ truthy (done_of data) = true
           ∧ truthy v = true
           ∧ (v = managedProjectId_of data
              ∨ truthy (managedProjectId_of data) = false
                ∧ ∃ p, projectId = Some p ∧ p ≠ "" ∧ v = VStr p))
    ∧ (Forall (fun e => ∀ i b req res data,
                 e = EvFetch i b req res →
                 parsed res = Some data →
                 truthy (done_of data) = true →
                 truthy (managedProjectId_of data) = false ∧ ¬ supplied)
         (emitted onboardUser w) →
       v = VNull)
    ∧ (Forall (fun e => ∀ i b req res,
                 e = EvFetch i b req res → id_well_shaped res = true)
         (emitted onboardUser w) →
       v = VNull ∨ ∃ s, v = VStr s).
Proof.
  destruct (onboardUser_shape w) as (v & Hres & Hshape).
  exists v. split; [done|].
  assert (v = VNull
          ∨ ∃ pre i b req res data,
              emitted onboardUser w = pre ++ [EvFetch i b req res]
              ∧ parsed res = Some data
              ∧ truthy (done_of data) = true
              ∧ truthy v = true
              ∧ (v = managedProjectId_of data
                 ∨ truthy (managedProjectId_of data) = false
                   ∧ ∃ p, projectId = Some p ∧ p ≠ "" ∧ v = VStr p)) as Hv.
  { destruct (endpoints_run_result _ _ _ _ Hshape)
      as [->|(pre & i & b & req & res & Hev & Hc)]; [by left|right].
    destruct (verdict_completed _ _ Hc) as (data & Hp & Hd & Ht & Hfrom).
    exists pre, i, b, req, res, data. repeat (split; [done|]).
    destruct Hfrom as [->|[Hm ->]]; [by left|right]. split; [done|].
    apply supplied_truthy in Ht as (p & Hpid & Hne).
    exists p. unfold Onboarding.projectId_value. by rewrite Hpid. }
  split; [exact Hv|]. split.
  - intros Hnone.
    destruct Hv as [->|(pre & i & b & req & res & data & Hev & Hp & Hd & Ht & Hfrom)];
      [done|].
    rewrite Hev, Forall_app, Forall_singleton in Hnone.
    destruct Hnone as [_ Hlast].
    destruct (Hlast _ _ _ _ _ eq_refl Hp Hd) as [Hm Hnot].
    destruct Hfrom as [->|(_ & p & Hpid & Hne & _)]; [congruence|].
    destruct Hnot. by exists p.
  - intros Hok.
    destruct Hv as [->|(pre & i & b & req & res & data & Hev & Hp & Hd & Ht & Hfrom)];
      [by left|right].
    rewrite Hev, Forall_app, Forall_singleton in Hok.
    destruct Hok as [_ Hlast]. specialize (Hlast _ _ _ _ eq_refl).
    destruct Hfrom as [->|(_ & p & _ & _ & ->)]; [|by eexists].
    unfold id_well_shaped in Hlast. rewrite Hp, Ht in Hlast. simpl in Hlast.
    destruct (managedProjectId_of data); try done. by eexists.
Qed.

(** C6.  The request body has a [cloudaicompanionProject] field exactly
    when the tier is not ["FREE"] and a project identifier was supplied,
    and the field then is that identifier; for tier ["FREE"] it has none,
    supplied or not.  Every request a run sends carries this body. *)
Theorem requestBody_cloudaicompanionProject :
  (has_own requestBody "cloudaicompanionProject" = true
     ↔ tierId ≠ "FREE" ∧ supplied)
  ∧ (∀ p, tierId ≠ "FREE" → projectId = Some p → p ≠ "" →
       own requestBody "cloudaicompanionProject" = VStr p)
  ∧ (tierId = "FREE" → has_own requestBody "cloudaicompanionProject" = false)
  ∧ (∀ w pre i b req res post,
       emitted onboardUser w = pre ++ EvFetch i b req res :: post →
       body req = requestBody).
Proof.
  split; [|split; [|split]].
  - rewrite supplied_truthy. unfold Onboarding.requestBody.
    destruct (String.eqb_spec tierId "FREE") as [Heq|Hne]; simpl.
    + split; [done|]. by intros [? _].
    + destruct (truthy projectId_value); simpl; (split; [done|]); [done|].
      by intros [_ ?].
  - intros p Hne -> Hp. unfold Onboarding.requestBody. simpl.
    destruct (String.eqb_spec tierId "FREE"); [done|].
    by destruct (String.eqb_spec p ""); [done|].
  - intros ->. unfold Onboarding.requestBody. by simpl.
  - intros w pre i b req res post Hev.
    destruct (onboardUser_shape w) as (v & _ & Hshape).
    by destruct (endpoints_run_fetch _ _ _ _ Hshape _ _ _ _ _ _ Hev)
      as (_ & (endpoint & _ & ->) & _).
Qed.

(** C9.  In a run of [onboardUser] every [sleep] lasts [delayMs], comes
    right after an attempt that is not the last allowed one and right
    before the next attempt on the same endpoint: none precedes the move
    to another endpoint or the final [return null].  In particular the
    attempt number [maxAttempts - 1] is never followed by a [sleep].  And
    when the first attempt on the first endpoint completes with a managed
    identifier, the run returns it having made that one [fetch] and no
    [sleep]. *)
Theorem onboardUser_sleeps w :
  (∀ pre ms post,
     emitted onboardUser w = pre ++ EvSleep ms :: post →
     ∃ pre' i b req res res' post',
       pre = pre' ++ [EvFetch i b req res]
       ∧ post = EvFetch i (b + 1) req res' :: post'
       ∧ b < maxAttempts - 1 ∧ ms = delayMs)
  ∧ (∀ pre i b req res post,
       emitted onboardUser w = pre ++ EvFetch i b req res :: post →
       b = maxAttempts - 1 →
       ∀ ms post', post ≠ EvSleep ms :: post')
  ∧ (∀ endpoint rest data,
       ONBOARD_USER_ENDPOINTS = endpoint :: rest →
       0 < maxAttempts →
       let res := network w (onboard_request endpoint) in
       parsed res = Some data →
       truthy (done_of data) = true →
       truthy (managedProjectId_of data) = true →
       result_of onboardUser w = Val (managedProjectId_of data)
       ∧ emitted onboardUser w = [EvFetch 0 0 (onboard_request endpoint) res]).
Proof.
  destruct (onboardUser_shape w) as (v & Hres & Hshape).
  split; [|split].
  - intros pre ms post Hev.
    destruct (endpoints_run_sleep _ _ _ _ Hshape _ _ _ Hev)
      as (pre' & i & b & req & res & res' & post' & -> & -> & Hb & _ & ->).
    by exists pre', i, b, req, res, res', post'.
  - intros pre i b req res post Hev Hb ms post' ->.
    replace (pre ++ EvFetch i b req res :: EvSleep ms :: post')
      with ((pre ++ [EvFetch i b req res]) ++ EvSleep ms :: post') in Hev
      by (by rewrite <- app_assoc).
    destruct (endpoints_run_sleep _ _ _ _ Hshape _ _ _ Hev)
      as (pre' & i' & b' & req' & res' & _ & _ & Hpre & _ & Hb' & _).
    apply app_inj_tail in Hpre as [_ [= _ -> _ _]]. lia.
  - intros endpoint rest data Hep Hmax res Hp Hd Hm.
    pose proof (verdict_managed _ _ Hp Hd Hm) as Hv.
    apply onboardUser_emitted.
    unfold Onboarding.onboardUser. rewrite Hep. simpl.
    rewrite seqZ_cons by done. simpl.
    unfold bind. rewrite attempt_step. cbv zeta.
    fold res. by rewrite Hv.
Qed.

End Runs.

(** *** Instances *)

Lemma onboardUser_completion_witness :
  emitted (Examples.onboard (Examples.always (Examples.ok_response Examples.done_with_X))) []
  = [] ++ EvFetch 0 0 (Examples.request_to "https://daily.example")
            (Examples.ok_response Examples.done_with_X) :: []
  ∧ result_of
      (Examples.onboard (Examples.always (Examples.ok_response Examples.done_with_X))) []
    = Val (VStr "X").
Proof.
  assert (emitted
            (Examples.onboard (Examples.always (Examples.ok_response Examples.done_with_X))) []
          = [] ++ EvFetch 0 0 (Examples.request_to "https://daily.example")
                    (Examples.ok_response Examples.done_with_X) :: []) as Hev
    by (vm_compute; reflexivity).
  split; [exact Hev|].
  destruct (onboardUser_completion _ _ _ _ _ _ _ _ _ _ _ _ _ _ _
              Examples.done_with_X Hev eq_refl eq_refl) as [Hmanaged _].
  by destruct (Hmanaged eq_refl).
Defined.

Lemma onboardUser_transport_failure_witness :
  emitted (Examples.onboard (Examples.always Examples.server_error)) []
  = [EvFetch 0 0 (Examples.request_to "https://daily.example") Examples.server_error]
    ++ EvFetch 1 0 (Examples.request_to "https://prod.example") Examples.server_error
    :: []
  ∧ is_transport_failure Examples.server_error = true
  ∧ result_of (Examples.onboard (Examples.always Examples.server_error)) [] = Val VNull.
Proof.
  assert (emitted (Examples.onboard (Examples.always Examples.server_error)) []
          = [EvFetch 0 0 (Examples.request_to "https://daily.example")
               Examples.server_error]
            ++ EvFetch 1 0 (Examples.request_to "https://prod.example")
                 Examples.server_error :: []) as Hev
    by (vm_compute; reflexivity).
  split; [exact Hev|]. split; [reflexivity|].
  destruct (onboardUser_transport_failure _ _ _ _ _ _ _ _ _ _ _ _ _ _ _ Hev eq_refl)
    as (v & Hres & _ & _ & Hnext).
  simpl in Hnext. destruct Hnext as [_ ->]. exact Hres.
Defined.

Lemma onboardUser_outcomes_witness :
  Forall (fun e => ∀ i b req res,
            e = EvFetch i b req res → id_well_shaped res = true)
    (emitted
       (Examples.onboard
          (Examples.scripted
             [Examples.ok_response Examples.not_done; Examples.server_error;
              Examples.ok_response Examples.not_done;
              Examples.ok_response Examples.done_with_X])) [])
  ∧ ∃ v,
      result_of
        (Examples.onboard
           (Examples.scripted
              [Examples.ok_response Examples.not_done; Examples.server_error;
               Examples.ok_response Examples.not_done;
               Examples.ok_response Examples.done_with_X])) []
      = Val v
      ∧ (v = VNull ∨ ∃ s, v = VStr s).
Proof.
  set (run := Examples.onboard _).
  assert (Forall (fun e => ∀ i b req res,
                    e = EvFetch i b req res → id_well_shaped res = true)
            (emitted run [])) as Hshape.
  { replace (emitted run [])
      with [EvFetch 0 0 (Examples.request_to "https://daily.example")
              (Examples.ok_response Examples.not_done);
            EvSleep 5000;
            EvFetch 0 1 (Examples.request_to "https://daily.example")
              Examples.server_error;
            EvFetch 1 0 (Examples.request_to "https://prod.example")
              (Examples.ok_response Examples.not_done);
            EvSleep 5000;
            EvFetch 1 1 (Examples.request_to "https://prod.example")
              (Examples.ok_response Examples.done_with_X)]
      by (vm_compute; reflexivity).
    repeat constructor; intros i b req res [= <- <- <- <-]; reflexivity. }
  split; [exact Hshape|].
  destruct (onboardUser_outcomes Examples.endpoints Examples.product_headers
              (Examples.scripted
                 [Examples.ok_response Examples.not_done; Examples.server_error;
                  Examples.ok_response Examples.not_done;
                  Examples.ok_response Examples.done_with_X])
              "token" "PRO" (Some "my-project") 3 5000 [])
    as (v & Hres & _ & _ & Hstring).
  exists v. split; [exact Hres|]. exact (Hstring Hshape).
Defined.

(** C3 as worded does not hold: when the backend answers
    [{done: true, response: {cloudaicompanionProject: {id: 123}}}],
    [onboardUser] returns the number [123], which is neither a string nor
    [null]. *)
Lemma onboardUser_returns_a_number :
  result_of
    (Examples.onboard (Examples.always (Examples.ok_response Examples.done_with_123)))
    []
  = Val (VNum 123)
  ∧ ¬ (VNum 123 = VNull ∨ ∃ s, VNum 123 = VStr s).
Proof.
  split; [vm_compute; reflexivity|]. by intros [?|[s ?]].
Qed.

Lemma requestBody_cloudaicompanionProject_witness :
  "PRO" ≠ "FREE"
  ∧ "my-project" ≠ ""
  ∧ own (requestBody "PRO" (Some "my-project")) "cloudaicompanionProject"
    = VStr "my-project"
  ∧ has_own (requestBody "FREE" (Some "my-project")) "cloudaicompanionProject"
    = false.
Proof.
  assert ("PRO" ≠ "FREE") as Htier by discriminate.
  assert ("my-project" ≠ "") as Hproject by discriminate.
  split; [exact Htier|]. split; [exact Hproject|]. split.
  - destruct (requestBody_cloudaicompanionProject Examples.endpoints
                Examples.product_headers (Examples.always Examples.server_error)
                "token" "PRO" (Some "my-project") 3 5000) as (_ & Hfield & _).
    exact (Hfield "my-project" Htier eq_refl Hproject).
  - destruct (requestBody_cloudaicompanionProject Examples.endpoints
                Examples.product_headers (Examples.always Examples.server_error)
                "token" "FREE" (Some "my-project") 3 5000) as (_ & _ & Hfree & _).
    exact (Hfree eq_refl).
Defined.

Lemma onboardUser_sleeps_witness :
  0 < 3
  ∧ Onboarding.parsed (Examples.ok_response Examples.done_with_X)
    = Some Examples.done_with_X
  ∧ result_of
      (Examples.onboard (Examples.always (Examples.ok_response Examples.done_with_X))) []
    = Val (VStr "X")
  ∧ emitted
      (Examples.onboard (Examples.always (Examples.ok_response Examples.done_with_X))) []
    = [EvFetch 0 0 (Examples.request_to "https://daily.example")
         (Examples.ok_response Examples.done_with_X)].
Proof.
  split; [lia|]. split; [reflexivity|].
  destruct (onboardUser_sleeps Examples.endpoints Examples.product_headers
              (Examples.always (Examples.ok_response Examples.done_with_X))
              "token" "PRO" (Some "my-project") 3 5000 [])
    as (_ & _ & Hfirst).
  apply (Hfirst "https://daily.example" ["https://prod.example"]
           Examples.done_with_X eq_refl);
    [lia | reflexivity | reflexivity | reflexivity].
Defined.

(** *** Sample runs *)

(** Never done: three attempts on each endpoint, a pause between two
    attempts but none after the third, and [null] at the end. *)
Example onboard_never_done :
  let answer := Examples.ok_response Examples.not_done in
  let daily := Examples.request_to "https://daily.example" in
  let prod := Examples.request_to "https://prod.example" in
  Examples.onboard (Examples.always answer) []
  = (Val VNull,
     [EvFetch 0 0 daily answer; EvSleep 5000;
      EvFetch 0 1 daily answer; EvSleep 5000;
      EvFetch 0 2 daily answer;
      EvFetch 1 0 prod answer; EvSleep 5000;
      EvFetch 1 1 prod answer; EvSleep 5000;
      EvFetch 1 2 prod answer]).
Proof. vm_compute. reflexivity. Qed.

(** [{done: true}] without a managed identifier: the caller's project. *)
Example onboard_fallback :
  result_of
    (Examples.onboard
       (Examples.always (Examples.ok_response (VObj [("done", VBool true)])))) []
  = Val (VStr "my-project").
Proof. vm_compute. reflexivity. Qed.

(** A body that parses to [null] makes [data.response] throw: the
    endpoint is given up like after a transport failure. *)
Example onboard_null_body :
  let answer := Examples.ok_response VNull in
  Examples.onboard (Examples.always answer) []
  = (Val VNull,
     [EvFetch 0 0 (Examples.request_to "https://daily.example") answer;
      EvFetch 1 0 (Examples.request_to "https://prod.example") answer]).
Proof. vm_compute. reflexivity. Qed.

End OnboardingFacts.

(** ** Session identity *)

Module SessionFacts.
Import JS Session.

(** *** The textual form of a UUID *)

Section Bytes.

Local Open Scope N_scope.

Lemma land_15_lt b : N.land b 15 < 16.
Proof.
  change 15 with (N.ones 4). rewrite N.land_ones. by apply N.mod_lt.
Qed.

Lemma land_255_lt b : N.land b 255 < 256.
Proof.
  change 255 with (N.ones 8). rewrite N.land_ones. by apply N.mod_lt.
Qed.

Lemma shiftr_4_lt b : b < 256 → N.shiftr b 4 < 16.
Proof.
  intros Hb. rewrite N.shiftr_div_pow2. change (2 ^ 4) with 16.
  apply N.Div0.div_lt_upper_bound. lia.
Qed.

Lemma lor_lt_256 a b : a < 256 → b < 256 → N.lor a b < 256.
Proof.
  intros Ha Hb.
  destruct (N.eq_dec (N.lor a b) 0) as [->|Hne]; [lia|].
  change 256 with (2 ^ 8). apply N.log2_lt_pow2; [lia|].
  rewrite N.log2_lor.
  destruct (N.eq_dec a 0) as [->|Ha0], (N.eq_dec b 0) as [->|Hb0]; simpl.
  all: try (apply N.max_lub_lt).
  all: try (apply N.log2_lt_pow2; [lia|done]).
  all: try done.
Qed.

Lemma hex_digit_lower n : n < 16 → is_lower_hex (hex_digit n) = true.
Proof.
  intros Hn. unfold hex_digit.
  assert (N.to_nat n < 16)%nat as Hlt by lia.
  revert Hlt. generalize (N.to_nat n). intros k Hk.
  do 16 (destruct k as [|k]; [done|]). lia.
Qed.

Lemma hex_byte_lower b :
  b < 256 →
  ∃ c1 c2, hex_byte b = String c1 (String c2 EmptyString)
           ∧ is_lower_hex c1 = true ∧ is_lower_hex c2 = true.
Proof.
  intros Hb. eexists _, _. split; [done|].
  split; apply hex_digit_lower; [by apply shiftr_4_lt | apply land_15_lt].
Qed.

Lemma uuid_text_canonical bs :
  length bs = 16%nat → Forall (fun b => b < 256) bs →
  is_canonical_uuid (uuid_text bs) = true ∧ String.length (uuid_text bs) = 36%nat.
Proof.
  intros Hlen Hall.
  do 17 (destruct bs as [|? bs]; try discriminate Hlen).
  repeat match goal with
         | H : Forall _ (_ :: _) |- _ => apply Forall_cons in H as [? H]
         end.
  repeat match goal with
         | H : (?b < 256)%N |- _ =>
             destruct (hex_byte_lower b H) as (? & ? & ? & ? & ?); clear H
         end.
  unfold uuid_text. simpl take. simpl drop. unfold hex_string. simpl fold_right.
  repeat match goal with H : hex_byte _ = _ |- _ => rewrite H; clear H end.
  split; [|done].
  unfold is_canonical_uuid. simpl.
  unfold canonical_char. simpl.
  repeat match goal with H : is_lower_hex _ = true |- _ => rewrite H; clear H end.
  done.
Qed.

Lemma uuid_v4_bytes_length r : length (uuid_v4_bytes r) = 16%nat.
Proof. unfold uuid_v4_bytes. by rewrite !length_alter, length_fmap, length_seq. Qed.

Lemma uuid_v4_bytes_lt r : Forall (fun b => b < 256) (uuid_v4_bytes r).
Proof.
  unfold uuid_v4_bytes.
  apply Forall_alter; [apply Forall_alter|].
  - apply Forall_fmap, Forall_forall. intros k _. apply land_255_lt.
  - intros b _ _. apply lor_lt_256; [|done].
    eapply N.le_lt_trans; [apply N.land_le_r|]. done.
  - intros b _ _. apply lor_lt_256; [|done].
    eapply N.lt_trans; [apply land_15_lt|done].
Qed.

Lemma randomUUID_canonical r :
  is_canonical_uuid (randomUUID r) = true ∧ String.length (randomUUID r) = 36%nat.
Proof.
  apply uuid_text_canonical; [apply uuid_v4_bytes_length | apply uuid_v4_bytes_lt].
Qed.

End Bytes.

(** *** Decimal numerals *)

Lemma parse_number_toString n : parse_decimal (number_toString n) = Some n.
Proof.
  unfold parse_decimal, number_toString.
  rewrite NilZero.isi.
  - simpl. by rewrite DecimalZ.of_to.
  - destruct n as [|p|p]; simpl; try done.
    intros [= H]. by apply (Unsigned.to_uint_nonnil p).
  - destruct n as [|p|p]; simpl; try done.
    intros [= H]. by apply (Unsigned.to_uint_nonnil p).
Qed.

Lemma string_of_uint_digits d :
  forallb is_digit (list_ascii_of_string (NilEmpty.string_of_uint d)) = true.
Proof. induction d; simpl; done. Qed.

Lemma number_toString_digits n :
  0 ≤ n →
  number_toString n ≠ ""
  ∧ forallb is_digit (list_ascii_of_string (number_toString n)) = true.
Proof.
  intros Hn. unfold number_toString.
  destruct n as [|p|p]; [done| |lia]. simpl.
  pose proof (Unsigned.to_uint_nonnil p) as Hnil.
  destruct (Pos.to_uint p) eqn:Hd; try done; simpl; (split; [done|]);
    apply string_of_uint_digits.
Qed.

(** *** Concatenation *)

Lemma append_inj_length s1 s2 t1 t2 :
  String.length s1 = String.length s2 →
  s1 +:+ t1 = s2 +:+ t2 → s1 = s2 ∧ t1 = t2.
Proof.
  revert s2. induction s1 as [|c s1 IH]; intros [|c' s2]; simpl; try done.
  intros [= Hlen] [= -> Heq]. destruct (IH _ Hlen Heq) as [-> ->]. done.
Qed.

(** *** The store *)

Section Store.

Context (entropy : nat → N) (dateNow : nat → Z).

Abbreviation generateBinaryStyleId := (generateBinaryStyleId entropy dateNow).
Abbreviation deriveSessionId := (deriveSessionId entropy dateNow).
Abbreviation step := (step entropy dateNow).
Abbreviation run := (run entropy dateNow).

Lemma generate_store w :
  runtimeSessionStore (generateBinaryStyleId w).2 = runtimeSessionStore w.
Proof. done. Qed.

Lemma derive_miss anthropicRequest account w :
  account ≠ "" →
  runtimeSessionStore w !! account = None →
  deriveSessionId anthropicRequest (Some account) w =
  ((generateBinaryStyleId w).1,
   {| runtimeSessionStore :=
        <[account := (generateBinaryStyleId w).1]> (runtimeSessionStore w);
      uuids_drawn := S (uuids_drawn w);
      clock_reads := S (clock_reads w) |}).
Proof.
  intros Hne Hmiss. unfold Session.deriveSessionId.
  destruct (String.eqb_spec account ""); [done|]. by rewrite Hmiss.
Qed.

Lemma derive_hit anthropicRequest account sessionId w :
  account ≠ "" →
  runtimeSessionStore w !! account = Some sessionId →
  deriveSessionId anthropicRequest (Some account) w = (sessionId, w).
Proof.
  intros Hne Hhit. unfold Session.deriveSessionId.
  destruct (String.eqb_spec account ""); [done|]. by rewrite Hhit.
Qed.

Lemma derive_no_account anthropicRequest accountEmail w :
  no_account accountEmail = true →
  deriveSessionId anthropicRequest accountEmail w = generateBinaryStyleId w.
Proof.
  unfold Session.deriveSessionId. destruct accountEmail as [a|]; simpl; [|done].
  by intros ->.
Qed.

(** A derivation never removes or changes an entry of the store. *)
Lemma derive_preserves anthropicRequest accountEmail w key sessionId :
  runtimeSessionStore w !! key = Some sessionId →
  runtimeSessionStore (deriveSessionId anthropicRequest accountEmail w).2 !! key
  = Some sessionId.
Proof.
  intros Hkey. destruct (no_account accountEmail) eqn:Hno.
  - by rewrite derive_no_account.
  - destruct accountEmail as [account|]; [|done]. simpl in Hno.
    assert (account ≠ "") as Hne by (by destruct (String.eqb_spec account "")).
    destruct (runtimeSessionStore w !! account) as [cached|] eqn:Hacc.
    + by rewrite (derive_hit _ _ cached).
    + rewrite derive_miss by done. simpl.
      rewrite lookup_insert_ne; [done|]. by intros ->; rewrite Hacc in Hkey.
Qed.

Lemma run_preserves calls :
  ∀ w key sessionId,
    Forall (fun c => is_clear c = false) calls →
    runtimeSessionStore w !! key = Some sessionId →
    runtimeSessionStore (run calls w) !! key = Some sessionId.
Proof.
  induction calls as [|c calls IH]; intros w key sessionId Hall Hkey; [done|].
  apply Forall_cons in Hall as [Hc Hall]. simpl. apply IH; [done|].
  destruct c as [anthropicRequest accountEmail|]; [|done]. simpl.
  by apply derive_preserves.
Qed.

Lemma run_absent_clear calls :
  ∀ w key,
    is_Some (runtimeSessionStore w !! key) →
    runtimeSessionStore (run calls w) !! key = None →
    Exists (fun c => is_clear c = true) calls.
Proof.
  induction calls as [|c calls IH]; intros w key [sessionId Hkey] Hnone.
  - simpl in Hnone. congruence.
  - destruct c as [anthropicRequest accountEmail|].
    + apply Exists_cons_tl.
      apply (IH (deriveSessionId anthropicRequest accountEmail w).2 key); [|done].
      exists sessionId. by apply derive_preserves.
    + by apply Exists_cons_hd.
Qed.

(** A derivation for another account, or for none, does not create the
    entry of [key]. *)
Lemma derive_other_absent anthropicRequest accountEmail w key :
  accountEmail ≠ Some key →
  runtimeSessionStore w !! key = None →
  runtimeSessionStore (deriveSessionId anthropicRequest accountEmail w).2 !! key
  = None.
Proof.
  intros Hother Hkey. destruct (no_account accountEmail) eqn:Hno.
  - by rewrite derive_no_account.
  - destruct accountEmail as [account|]; [|done]. simpl in Hno.
    assert (account ≠ "") as Hne by (by destruct (String.eqb_spec account "")).
    destruct (runtimeSessionStore w !! account) as [cached|] eqn:Hacc.
    + by rewrite (derive_hit _ _ cached).
    + rewrite derive_miss by done. simpl.
      rewrite lookup_insert_ne; [done|]. by intros ->.
Qed.

Lemma generate_format w : token_format (generateBinaryStyleId w).1.
Proof.
  exists (entropy (uuids_drawn w)), (dateNow (clock_reads w)).
  split; [done|]. apply randomUUID_canonical.
Qed.

Lemma derive_format anthropicRequest accountEmail w :
  map_Forall (fun _ t => token_format t) (runtimeSessionStore w) →
  token_format (deriveSessionId anthropicRequest accountEmail w).1
  ∧ map_Forall (fun _ t => token_format t)
      (runtimeSessionStore (deriveSessionId anthropicRequest accountEmail w).2).
Proof.
  intros Hinv. destruct (no_account accountEmail) eqn:Hno.
  - rewrite derive_no_account by done. split; [apply generate_format|done].
  - destruct accountEmail as [account|]; [|done]. simpl in Hno.
    assert (account ≠ "") as Hne by (by destruct (String.eqb_spec account "")).
    destruct (runtimeSessionStore w !! account) as [cached|] eqn:Hacc.
    + rewrite (derive_hit _ _ cached) by done. split; [|done].
      by apply (Hinv account).
    + rewrite derive_miss by done. simpl. split; [apply generate_format|].
      apply map_Forall_insert_2; [apply generate_format|done].
Qed.

Lemma run_format calls :
  ∀ w,
    map_Forall (fun _ t => token_format t) (runtimeSessionStore w) →
    map_Forall (fun _ t => token_format t) (runtimeSessionStore (run calls w)).
Proof.
  induction calls as [|c calls IH]; intros w Hinv; [done|].
  simpl. apply IH. destruct c as [anthropicRequest accountEmail|]; simpl.
  - by apply derive_format.
  - apply map_Forall_empty.
Qed.

Lemma run_absent calls :
  ∀ w key,
    Forall (fun c => ∀ anthropicRequest, c ≠ Derive anthropicRequest (Some key)) calls →
    runtimeSessionStore w !! key = None →
    runtimeSessionStore (run calls w) !! key = None.
Proof.
  induction calls as [|c calls IH]; intros w key Hall Hkey; [done|].
  apply Forall_cons in Hall as [Hc Hall]. simpl. apply IH; [done|].
  destruct c as [anthropicRequest accountEmail|]; [|done]. simpl.
  apply derive_other_absent; [|done]. intros ->. by apply (Hc anthropicRequest).
Qed.

(** *** The claims about the session store *)

(** C4.  For a non-empty account key the store is a two-state machine.
    The key is absent in the initial store and stays absent while no
    derivation is made for it.  A derivation that finds it absent
    generates a token, returns it and stores it under the key.  From then
    on, whatever derivations are made, for this or any other account, a
    derivation for the key returns that same token and leaves the world
    as it is.  [clearSessionStore] makes every key absent, and a key can
    only have become absent through it; the next derivation then acts as
    a first one. *)
Theorem session_state_machine account :
  account ≠ "" →
  (runtimeSessionStore initial_world !! account = None
   ∧ ∀ calls w,
       Forall (fun c => ∀ anthropicRequest,
                 c ≠ Derive anthropicRequest (Some account)) calls →
       runtimeSessionStore w !! account = None →
       runtimeSessionStore (run calls w) !! account = None)
  ∧ (∀ anthropicRequest w,
       runtimeSessionStore w !! account = None →
       (deriveSessionId anthropicRequest (Some account) w).1
       = (generateBinaryStyleId w).1
       ∧ runtimeSessionStore (deriveSessionId anthropicRequest (Some account) w).2
         !! account
         = Some (generateBinaryStyleId w).1)
  ∧ (∀ anthropicRequest w sessionId,
       runtimeSessionStore w !! account = Some sessionId →
       deriveSessionId anthropicRequest (Some account) w = (sessionId, w))
  ∧ (∀ calls anthropicRequest w sessionId,
       runtimeSessionStore w !! account = Some sessionId →
       Forall (fun c => is_clear c = false) calls →
       deriveSessionId anthropicRequest (Some account) (run calls w)
       = (sessionId, run calls w))
  ∧ (∀ calls w,
       is_Some (runtimeSessionStore w !! account) →
       runtimeSessionStore (run calls w) !! account = None →
       Exists (fun c => is_clear c = true) calls)
  ∧ (∀ anthropicRequest w key,
       runtimeSessionStore (clearSessionStore w) !! key = None
       ∧ (deriveSessionId anthropicRequest (Some account) (clearSessionStore w)).1
         = (generateBinaryStyleId (clearSessionStore w)).1
       ∧ runtimeSessionStore
           (deriveSessionId anthropicRequest (Some account) (clearSessionStore w)).2
         !! account
         = Some (generateBinaryStyleId (clearSessionStore w)).1).
Proof.
  intros Hne.
  assert (∀ anthropicRequest w,
            runtimeSessionStore w !! account = None →
            (deriveSessionId anthropicRequest (Some account) w).1
            = (generateBinaryStyleId w).1
            ∧ runtimeSessionStore
                (deriveSessionId anthropicRequest (Some account) w).2 !! account
              = Some (generateBinaryStyleId w).1) as Hfirst.
  { intros anthropicRequest w Hmiss. rewrite derive_miss by done. simpl.
    split; [done|]. apply lookup_insert_eq. }
  split; [|split; [|split; [|split; [|split]]]].
  - split; [done|]. intros calls w. apply run_absent.
  - exact Hfirst.
  - intros anthropicRequest w sessionId. by apply derive_hit.
  - intros calls anthropicRequest w sessionId Hkey Hall.
    apply derive_hit; [done|]. by apply run_preserves.
  - intros calls w. apply run_absent_clear.
  - intros anthropicRequest w key. split; [done|]. by apply Hfirst.
Qed.

(** C5.  A generated token is the UUID drawn at that moment, in its
    canonical 36-character form, immediately followed by the decimal
    numeral of the clock reading in milliseconds, with nothing in
    between: the first 36 characters are the UUID and the rest reads back
    as the timestamp.  Every token a derivation returns that was not
    cached is generated this way, and every token the store ever returns
    or holds has this shape. *)
Theorem generateBinaryStyleId_format w :
  let uuid := randomUUID (entropy (uuids_drawn w)) in
  let millis := number_toString (dateNow (clock_reads w)) in
  (generateBinaryStyleId w).1 = uuid +:+ millis
  ∧ is_canonical_uuid uuid = true
  ∧ String.length uuid = 36%nat
  ∧ parse_decimal millis = Some (dateNow (clock_reads w))
  ∧ (0 ≤ dateNow (clock_reads w) →
     millis ≠ "" ∧ forallb is_digit (list_ascii_of_string millis) = true)
  ∧ (∀ uuid' millis',
       String.length uuid' = 36%nat →
       (generateBinaryStyleId w).1 = uuid' +:+ millis' →
       uuid' = uuid ∧ millis' = millis)
  ∧ (∀ anthropicRequest accountEmail,
       (no_account accountEmail = true
        ∨ ∃ account, accountEmail = Some account
                     ∧ runtimeSessionStore w !! account = None) →
       (deriveSessionId anthropicRequest accountEmail w).1
       = (generateBinaryStyleId w).1)
  ∧ (∀ calls anthropicRequest accountEmail,
       token_format
         (deriveSessionId anthropicRequest accountEmail (run calls initial_world)).1
       ∧ map_Forall (fun _ t => token_format t)
           (runtimeSessionStore (run calls initial_world))).
Proof.
  intros uuid millis.
  destruct (randomUUID_canonical (entropy (uuids_drawn w))) as [Hcanon Hlen].
  split; [done|]. split; [done|]. split; [done|].
  split; [apply parse_number_toString|].
  split; [apply number_toString_digits|].
  split; [|split].
  - intros uuid' millis' Hlen' Heq. simpl in Heq.
    symmetry in Heq. apply append_inj_length in Heq; [done|].
    by rewrite Hlen'.
  - intros anthropicRequest accountEmail [Hno|(account & -> & Hmiss)].
    + by rewrite derive_no_account.
    + destruct (String.eqb_spec account "") as [->|Hne].
      * by rewrite derive_no_account.
      * by rewrite derive_miss.
  - intros calls anthropicRequest accountEmail.
    assert (map_Forall (fun _ t => token_format t)
              (runtimeSessionStore (run calls initial_world))) as Hinv.
    { apply run_format. apply map_Forall_empty. }
    split; [|done]. by apply derive_format.
Qed.

(** C8, as the code has it.  A derivation without an account
    ([undefined], [null] or the empty string) is a plain token generation:
    it returns the freshly generated token, its result does not depend on
    what the store holds, and it leaves the store as it was.  Two such
    calls return different strings whenever their UUID draws or their
    clock readings differ; nothing in the code makes them differ
    otherwise. *)
Theorem deriveSessionId_no_account anthropicRequest accountEmail w :
  no_account accountEmail = true →
  deriveSessionId anthropicRequest accountEmail w = generateBinaryStyleId w
  ∧ runtimeSessionStore (deriveSessionId anthropicRequest accountEmail w).2
    = runtimeSessionStore w
  ∧ (∀ store,
       (deriveSessionId anthropicRequest accountEmail
          {| runtimeSessionStore := store;
             uuids_drawn := uuids_drawn w;
             clock_reads := clock_reads w |}).1
       = (deriveSessionId anthropicRequest accountEmail w).1)
  ∧ (∀ anthropicRequest' accountEmail' w',
       no_account accountEmail' = true →
       randomUUID (entropy (uuids_drawn w)) ≠ randomUUID (entropy (uuids_drawn w'))
       ∨ dateNow (clock_reads w) ≠ dateNow (clock_reads w') →
       (deriveSessionId anthropicRequest accountEmail w).1
       ≠ (deriveSessionId anthropicRequest' accountEmail' w').1)
  ∧ uuids_drawn (deriveSessionId anthropicRequest accountEmail w).2
    = S (uuids_drawn w)
  ∧ clock_reads (deriveSessionId anthropicRequest accountEmail w).2
    = S (clock_reads w).
Proof.
  intros Hno. rewrite !derive_no_account by done.
  split; [done|]. split; [done|]. split; [|split; [|done]].
  - intros store. by rewrite derive_no_account.
  - intros anthropicRequest' accountEmail' w' Hno' Hdiff Heq.
    rewrite derive_no_account in Heq by done. simpl in Heq.
    apply append_inj_length in Heq as [Huuid Hmillis].
    + destruct Hdiff as [Hd|Hd]; [done|].
      apply Hd. apply (f_equal parse_decimal) in Hmillis.
      rewrite !parse_number_toString in Hmillis. congruence.
    + destruct (randomUUID_canonical (entropy (uuids_drawn w))) as [_ ->].
      by destruct (randomUUID_canonical (entropy (uuids_drawn w'))) as [_ ->].
Qed.

(** C10.  A derivation for a non-empty account touches at most the entry
    of that account.  When the account was not cached, the new store is
    the old one with exactly that key added; when it was, the world is
    unchanged.  Either way the entry of every other account is what it
    was; and no derivation at all, with or without an account, changes or
    removes an entry that is cached. *)
Theorem deriveSessionId_frame anthropicRequest account w :
  account ≠ "" →
  let sessionId := (deriveSessionId anthropicRequest (Some account) w).1 in
  let w' := (deriveSessionId anthropicRequest (Some account) w).2 in
  (∀ other, other ≠ account →
     runtimeSessionStore w' !! other = runtimeSessionStore w !! other)
  ∧ (runtimeSessionStore w !! account = None →
     runtimeSessionStore w' = <[account := sessionId]> (runtimeSessionStore w)
     ∧ dom (runtimeSessionStore w') = {[account]} ∪ dom (runtimeSessionStore w))
  ∧ (is_Some (runtimeSessionStore w !! account) → w' = w)
  ∧ (∀ anthropicRequest' accountEmail' w0 other cached,
       runtimeSessionStore w0 !! other = Some cached →
       runtimeSessionStore (deriveSessionId anthropicRequest' accountEmail' w0).2
         !! other
       = Some cached).
Proof.
  intros Hne sessionId w'. subst sessionId w'.
  assert (∀ anthropicRequest' accountEmail' w0 other cached,
            runtimeSessionStore w0 !! other = Some cached →
            runtimeSessionStore
              (deriveSessionId anthropicRequest' accountEmail' w0).2 !! other
            = Some cached) as Hkept.
  { intros. by apply derive_preserves. }
  destruct (runtimeSessionStore w !! account) as [cached|] eqn:Hacc.
  - rewrite (derive_hit _ _ cached) by done. simpl.
    split; [done|]. split; [done|]. split; [done|exact Hkept].
  - rewrite derive_miss by done. simpl. split; [|split; [|split]].
    + intros other Hother. by rewrite lookup_insert_ne.
    + intros _. split; [done|]. by rewrite dom_insert_L.
    + by intros [? [=]].
    + exact Hkept.
Qed.

End Store.

(** *** Instances *)

Lemma session_state_machine_witness :
  "a@x.com" ≠ ""
  ∧ deriveSessionId Examples.entropy Examples.dateNow VNull (Some "a@x.com")
      (deriveSessionId Examples.entropy Examples.dateNow VNull (Some "a@x.com")
         initial_world).2
    = ((generateBinaryStyleId Examples.entropy Examples.dateNow initial_world).1,
       (deriveSessionId Examples.entropy Examples.dateNow VNull (Some "a@x.com")
          initial_world).2).
Proof.
  assert ("a@x.com" ≠ "") as Hne by discriminate.
  split; [exact Hne|].
  destruct (session_state_machine Examples.entropy Examples.dateNow "a@x.com" Hne)
    as (_ & Hfirst & Hcached & _).
  apply Hcached. apply Hfirst. reflexivity.
Defined.

Lemma generateBinaryStyleId_format_witness :
  0 ≤ Examples.dateNow 0
  ∧ (generateBinaryStyleId Examples.entropy Examples.dateNow initial_world).1
    = "01234567-89ab-4def-8123-456789abcdef" +:+ "1762117200000"
  ∧ forallb is_digit
      (list_ascii_of_string (number_toString (Examples.dateNow 0))) = true.
Proof.
  assert (0 ≤ Examples.dateNow 0) as Hclock by (vm_compute; discriminate).
  split; [exact Hclock|].
  destruct (generateBinaryStyleId_format Examples.entropy Examples.dateNow
              initial_world) as (Htoken & _ & _ & _ & Hdigits & _).
  split; [exact Htoken|]. exact (proj2 (Hdigits Hclock)).
Defined.

Lemma deriveSessionId_no_account_witness :
  no_account None = true
  ∧ no_account (Some "") = true
  ∧ (deriveSessionId Examples.entropy Examples.dateNow VNull None initial_world).1
    ≠ (deriveSessionId Examples.entropy Examples.dateNow VNull (Some "")
         (deriveSessionId Examples.entropy Examples.dateNow VNull None
            initial_world).2).1.
Proof.
  split; [reflexivity|]. split; [reflexivity|].
  destruct (deriveSessionId_no_account Examples.entropy Examples.dateNow
              VNull None initial_world eq_refl) as (_ & _ & _ & Hdiffer & _).
  apply Hdiffer; [reflexivity|].
  right. vm_compute. discriminate.
Defined.

(** C8 as worded does not hold: the two strings differ only through the
    random source and the clock.  When [crypto.randomUUID()] gives the
    same identifier twice within one millisecond, two calls without an
    account return the same string. *)
Lemma deriveSessionId_no_account_can_repeat :
  let first :=
    deriveSessionId Examples.repeating_entropy Examples.stopped_clock VNull None
      initial_world in
  let second :=
    deriveSessionId Examples.repeating_entropy Examples.stopped_clock VNull None
      first.2 in
  no_account None = true
  ∧ first.1 = "01234567-89ab-4def-8123-456789abcdef1762117200000"
  ∧ second.1 = first.1.
Proof. vm_compute. done. Qed.

Lemma deriveSessionId_frame_witness :
  "b@x.com" ≠ ""
  ∧ runtimeSessionStore
      (deriveSessionId Examples.entropy Examples.dateNow VNull (Some "b@x.com")
         (deriveSessionId Examples.entropy Examples.dateNow VNull (Some "a@x.com")
            initial_world).2).2
    !! "a@x.com"
    = runtimeSessionStore
        (deriveSessionId Examples.entropy Examples.dateNow VNull (Some "a@x.com")
           initial_world).2
      !! "a@x.com".
Proof.
  assert ("b@x.com" ≠ "") as Hne by discriminate.
  split; [exact Hne|].
  destruct (deriveSessionId_frame Examples.entropy Examples.dateNow VNull "b@x.com"
              (deriveSessionId Examples.entropy Examples.dateNow VNull
                 (Some "a@x.com") initial_world).2 Hne) as (Hother & _).
  apply Hother. discriminate.
Defined.

(** *** Sample runs *)

Example derive_twice_same_account :
  let first :=
    deriveSessionId Examples.entropy Examples.dateNow VNull (Some "a@x.com")
      initial_world in
  let second :=
    deriveSessionId Examples.entropy Examples.dateNow VNull (Some "a@x.com")
      first.2 in
  first.1 = "01234567-89ab-4def-8123-456789abcdef1762117200000"
  ∧ second.1 = first.1.
Proof. vm_compute. done. Qed.

Example derive_other_account :
  let first :=
    deriveSessionId Examples.entropy Examples.dateNow VNull (Some "a@x.com")
      initial_world in
  let other :=
    deriveSessionId Examples.entropy Examples.dateNow VNull (Some "b@x.com")
      first.2 in
  other.1 = "02468acf-1357-4bde-8246-8acf13579bde1762117200001"
  ∧ other.1 ≠ first.1.
Proof. vm_compute. split; [reflexivity | discriminate]. Qed.

End SessionFacts.

(* ===================================================================== *)
(** * Further properties *)
(* ===================================================================== *)

Module JSMore.
Import JS.

Lemma assoc_set_eq {A : Type} (k : string) (v : A) fs :
  assoc k (assoc_set k v fs) = Some v.
Proof.
  induction fs as [|[k' v'] fs IH]; simpl.
  - by rewrite String.eqb_refl.
  - destruct (String.eqb k k') eqn:E; simpl.
    + by rewrite String.eqb_refl.
    + by rewrite E.
Qed.

Lemma assoc_set_ne {A : Type} (k k' : string) (v : A) fs :
  k ≠ k' → assoc k' (assoc_set k v fs) = assoc k' fs.
Proof.
  intros Hne. induction fs as [|[k0 v0] fs IH]; simpl.
  - destruct (String.eqb_spec k' k); [congruence | done].
  - destruct (String.eqb_spec k k0) as [->|]; simpl.
    + destruct (String.eqb_spec k' k0); [congruence | done].
    + destruct (String.eqb_spec k' k0); [done | apply IH].
Qed.

Lemma assoc_app {A : Type} (k : string) (l1 l2 : list (string * A)) :
  assoc k (l1 ++ l2) =
  match assoc k l1 with
  | Some v => Some v
  | None => assoc k l2
  end.
Proof.
  induction l1 as [|[k' v'] l1 IH]; simpl; [done|].
  by destruct (String.eqb k k').
Qed.

(** Spreading [extra] over an object literal: the last binding of a key
    in [extra] wins, the other keys keep what they had. *)
Lemma assoc_spread {A : Type} (k : string) (extra base : list (string * A)) :
  assoc k (fold_left (fun hs kv => assoc_set kv.1 kv.2 hs) extra base) =
  match assoc k (rev extra) with
  | Some v => Some v
  | None => assoc k base
  end.
Proof.
  revert base. induction extra as [|[k' v'] extra IH]; intros base; simpl; [done|].
  rewrite IH, assoc_app. destruct (assoc k (rev extra)); [done|]. simpl.
  destruct (String.eqb_spec k k') as [->|Hne].
  - apply assoc_set_eq.
  - by apply assoc_set_ne.
Qed.

End JSMore.

(** ** The onboarding handshake, continued *)

Module OnboardingMore.
Import JS Onboarding OnboardingFacts.

Section Runs.

Context (ONBOARD_USER_ENDPOINTS : list string)
        (ANTIGRAVITY_HEADERS : list (string * string))
        (network : world → request → fetch_result)
        (token tierId : string) (projectId : option string)
        (maxAttempts delayMs : Z).

Abbreviation onboard_request := (onboard_request ANTIGRAVITY_HEADERS token tierId projectId).
Abbreviation attempt_body :=
  (attempt_body ANTIGRAVITY_HEADERS network token tierId projectId maxAttempts delayMs).
Abbreviation for_attempts :=
  (for_attempts ANTIGRAVITY_HEADERS network token tierId projectId maxAttempts delayMs).
Abbreviation for_endpoints :=
  (for_endpoints ANTIGRAVITY_HEADERS network token tierId projectId maxAttempts delayMs).
Abbreviation onboardUser :=
  (onboardUser ONBOARD_USER_ENDPOINTS ANTIGRAVITY_HEADERS network token tierId
     projectId maxAttempts delayMs).
Abbreviation verdict_of := (verdict_of projectId).
Abbreviation attempts_run :=
  (attempts_run ANTIGRAVITY_HEADERS token tierId projectId maxAttempts delayMs).
Abbreviation endpoints_run :=
  (endpoints_run ANTIGRAVITY_HEADERS token tierId projectId maxAttempts delayMs).
Abbreviation moves_on := (moves_on ANTIGRAVITY_HEADERS token tierId projectId).
Abbreviation follows :=
  (follows ANTIGRAVITY_HEADERS token tierId projectId maxAttempts delayMs).
Abbreviation requestBody := (requestBody tierId projectId).
Abbreviation metadata := (metadata projectId).
Abbreviation request_headers := (request_headers ANTIGRAVITY_HEADERS token).
Abbreviation projectId_value := (projectId_value projectId).
Abbreviation supplied := (supplied projectId).
Abbreviation first_completion :=
  (first_completion ANTIGRAVITY_HEADERS network token tierId projectId).

(** *** Nothing to try *)

Lemma for_endpoints_no_attempts endpoints :
  maxAttempts ≤ 0 → ∀ ix w, for_endpoints ix endpoints w = (Val VNull, w).
Proof.
  intros Hmax. induction endpoints as [|endpoint rest IH]; intros ix w; [done|].
  simpl. rewrite seqZ_nil by done. simpl. unfold bind, ret. apply IH.
Qed.

(** X1.  With an empty endpoint list, or with [maxAttempts] zero or
    negative, [onboardUser] returns [null] at once: no request is sent and
    no time is spent sleeping. *)
Theorem onboardUser_nothing_to_try w :
  ONBOARD_USER_ENDPOINTS = [] ∨ maxAttempts ≤ 0 →
  onboardUser w = (Val VNull, w).
Proof.
  unfold Onboarding.onboardUser. intros [->|Hmax]; [done|].
  by apply for_endpoints_no_attempts.
Qed.

(** *** How much a run can do *)

Lemma time_slept_app evs evs' :
  time_slept (evs ++ evs') = time_slept evs + time_slept evs'.
Proof.
  induction evs as [|[ix a req res|ms] evs IH]; simpl; [done| |]; rewrite IH; lia.
Qed.

Lemma count_fetches_app evs evs' :
  count_fetches (evs ++ evs') = (count_fetches evs + count_fetches evs')%nat.
Proof. unfold count_fetches. by rewrite List.filter_app, length_app. Qed.

Lemma count_sleeps_app evs evs' :
  count_sleeps (evs ++ evs') = (count_sleeps evs + count_sleeps evs')%nat.
Proof. unfold count_sleeps. by rewrite List.filter_app, length_app. Qed.

Lemma attempts_run_counts ix endpoint attempt evs c :
  attempts_run ix endpoint attempt evs c →
  (count_fetches evs ≤ Z.to_nat (maxAttempts - attempt))%nat
  ∧ (count_sleeps evs ≤ Z.to_nat (maxAttempts - attempt) - 1)%nat
  ∧ time_slept evs = Z.of_nat (count_sleeps evs) * delayMs.
Proof.
  induction 1 as [a Ha|a res0 v Ha Hv|a res0 Ha Hv|a res0 evs c Ha Hv Hrun IH
                 |a res0 evs c Ha Hv Hrun IH];
    unfold count_fetches, count_sleeps in *; simpl; lia.
Qed.

Lemma endpoints_run_counts ix endpoints evs v :
  endpoints_run ix endpoints evs v →
  (count_fetches evs ≤ length endpoints * Z.to_nat maxAttempts)%nat
  ∧ (count_sleeps evs ≤ length endpoints * (Z.to_nat maxAttempts - 1))%nat
  ∧ time_slept evs = Z.of_nat (count_sleeps evs) * delayMs.
Proof.
  induction 1 as [|ix endpoint rest evs v Hrun
                 |ix endpoint rest evs evs' v Hrun Hrest IH].
  - unfold count_fetches, count_sleeps. simpl. lia.
  - destruct (attempts_run_counts _ _ _ _ _ Hrun) as (Hf & Hs & Ht).
    rewrite Z.sub_0_r in Hf, Hs. simpl. split; [nia|]. split; [nia|done].
  - destruct (attempts_run_counts _ _ _ _ _ Hrun) as (Hf & Hs & Ht).
    destruct IH as (Hf' & Hs' & Ht').
    rewrite Z.sub_0_r in Hf, Hs.
    rewrite count_fetches_app, count_sleeps_app, time_slept_app. simpl.
    split; [nia|]. split; [nia|]. rewrite Ht, Ht'. lia.
Qed.

Lemma count_fetches_at_app i evs evs' :
  count_fetches_at i (evs ++ evs')
  = (count_fetches_at i evs + count_fetches_at i evs')%nat.
Proof. unfold count_fetches_at. by rewrite List.filter_app, length_app. Qed.

Lemma count_fetches_at_le i evs : (count_fetches_at i evs ≤ count_fetches evs)%nat.
Proof.
  unfold count_fetches_at, count_fetches.
  induction evs as [|[ix a req res|ms] evs IH]; simpl; [done| |done].
  destruct (ix =? i)%nat; simpl; lia.
Qed.

Lemma count_fetches_at_none i evs :
  Forall (fun e => ∀ j, fetch_ix e = Some j → j ≠ i) evs →
  count_fetches_at i evs = 0%nat.
Proof.
  unfold count_fetches_at. induction 1 as [|[ix a req res|ms] evs He _ IH]; simpl;
    [done| |done].
  destruct (Nat.eqb_spec ix i) as [->|]; [|done].
  by destruct (He i eq_refl).
Qed.

(** No endpoint receives more than [maxAttempts] requests. *)
Lemma endpoints_run_counts_at ix endpoints evs v :
  endpoints_run ix endpoints evs v →
  ∀ i, (count_fetches_at i evs ≤ Z.to_nat maxAttempts)%nat.
Proof.
  induction 1 as [|ix endpoint rest evs v Hrun
                 |ix endpoint rest evs evs' v Hrun Hrest IH]; intros i.
  - unfold count_fetches_at. simpl. lia.
  - destruct (attempts_run_counts _ _ _ _ _ Hrun) as (Hf & _).
    rewrite Z.sub_0_r in Hf. etrans; [apply count_fetches_at_le|done].
  - rewrite count_fetches_at_app.
    destruct (decide (i = ix)) as [->|Hne].
    + destruct (attempts_run_counts _ _ _ _ _ Hrun) as (Hf & _).
      rewrite Z.sub_0_r in Hf.
      pose proof (count_fetches_at_le ix evs) as Hle.
      rewrite (count_fetches_at_none ix evs'); [lia|].
      eapply Forall_impl; [by eapply endpoints_run_ge|].
      intros e He j Hj. specialize (He j Hj). lia.
    + rewrite (count_fetches_at_none i evs); [apply IH|].
      eapply Forall_impl; [by eapply attempts_run_ix|].
      intros e He j Hj. rewrite (He j Hj). done.
Qed.

(** The events of a run fall into one segment per endpoint tried, in
    list order, each with the events of that endpoint only and within the
    bounds of one polling loop. *)
Lemma endpoints_run_segments ix endpoints evs v :
  endpoints_run ix endpoints evs v →
  ∃ segments,
    evs = concat segments
    ∧ (length segments ≤ length endpoints)%nat
    ∧ ∀ k segment,
        segments !! k = Some segment →
        Forall (fun e => ∀ j, fetch_ix e = Some j → j = (ix + k)%nat) segment
        ∧ (count_fetches segment ≤ Z.to_nat maxAttempts)%nat
        ∧ (count_sleeps segment ≤ Z.to_nat maxAttempts - 1)%nat
        ∧ time_slept segment = Z.of_nat (count_sleeps segment) * delayMs.
Proof.
  induction 1 as [|ix endpoint rest evs v Hrun
                 |ix endpoint rest evs evs' v Hrun Hrest IH].
  - exists []. split; [done|]. split; [done|]. by intros k segment.
  - exists [evs]. split; [simpl; by rewrite app_nil_r|]. split; [simpl; lia|].
    intros [|k] segment; [|done]. intros [= <-].
    destruct (attempts_run_counts _ _ _ _ _ Hrun) as (Hf & Hs & Ht).
    rewrite Z.sub_0_r in Hf, Hs. rewrite Nat.add_0_r.
    split; [by eapply attempts_run_ix|done].
  - destruct IH as (segments & -> & Hlen & Hsegments).
    exists (evs :: segments). split; [done|]. split; [simpl; lia|].
    intros [|k] segment.
    + intros [= <-].
      destruct (attempts_run_counts _ _ _ _ _ Hrun) as (Hf & Hs & Ht).
      rewrite Z.sub_0_r in Hf, Hs. rewrite Nat.add_0_r.
      split; [by eapply attempts_run_ix|done].
    + intros Hk. destruct (Hsegments k segment Hk) as (Hix & Hbounds).
      split; [|done]. eapply Forall_impl; [exact Hix|].
      intros e He j Hj. rewrite (He j Hj). lia.
Qed.

(** X2.  No configured endpoint receives more than [maxAttempts] requests
    in a run.  The events of a run fall into consecutive segments, one
    per endpoint tried and in list order: segment number [k] holds only
    requests to endpoint number [k], at most [maxAttempts] of them, and at
    most [maxAttempts - 1] sleeps, which take [delayMs] each.  Summed
    over the run this gives at most [maxAttempts] requests and
    [maxAttempts - 1] sleeps times the number of endpoints. *)
Theorem onboardUser_effort w :
  (∀ i, (count_fetches_at i (emitted onboardUser w) ≤ Z.to_nat maxAttempts)%nat)
  ∧ (∃ segments,
       emitted onboardUser w = concat segments
       ∧ (length segments ≤ length ONBOARD_USER_ENDPOINTS)%nat
       ∧ ∀ k segment,
           segments !! k = Some segment →
           Forall (fun e => ∀ j, fetch_ix e = Some j → j = k) segment
           ∧ (count_fetches segment ≤ Z.to_nat maxAttempts)%nat
           ∧ (count_sleeps segment ≤ Z.to_nat maxAttempts - 1)%nat
           ∧ time_slept segment = Z.of_nat (count_sleeps segment) * delayMs)
  ∧ (count_fetches (emitted onboardUser w)
     ≤ length ONBOARD_USER_ENDPOINTS * Z.to_nat maxAttempts)%nat
  ∧ (count_sleeps (emitted onboardUser w)
     ≤ length ONBOARD_USER_ENDPOINTS * (Z.to_nat maxAttempts - 1))%nat
  ∧ time_slept (emitted onboardUser w)
    = Z.of_nat (count_sleeps (emitted onboardUser w)) * delayMs.
Proof.
  destruct (onboardUser_shape ONBOARD_USER_ENDPOINTS ANTIGRAVITY_HEADERS network
              token tierId projectId maxAttempts delayMs w) as (v & _ & Hshape).
  split; [by apply (endpoints_run_counts_at _ _ _ _ Hshape)|].
  split; [|by apply (endpoints_run_counts _ _ _ _ Hshape)].
  destruct (endpoints_run_segments _ _ _ _ Hshape) as (segments & Heq & Hlen & Hseg).
  exists segments. split; [done|]. split; [done|].
  intros k segment Hk. by destruct (Hseg k segment Hk).
Qed.

(** *** Answers that do not complete *)

Lemma verdict_malformed r :
  ok r = true →
  (∃ e, json r = inl e) ∨ (∃ data, json r = inr data ∧ nullish data = true) →
  verdict_of (Resolved r) = Abandon.
Proof.
  intros Hok Hbody. unfold Onboarding.verdict_of. simpl. rewrite Hok.
  destruct Hbody as [[e ->]|(data & -> & Hnull)]; [done|]. by rewrite Hnull.
Qed.

Lemma verdict_not_done res data :
  parsed res = Some data →
  nullish data = false →
  truthy (done_of data) = false
  ∨ (truthy (managedProjectId_of data) = false ∧ ¬ supplied) →
  verdict_of res = NotDone.
Proof.
  intros Hp Hnull Hnot. unfold Onboarding.verdict_of. rewrite Hp, Hnull.
  destruct Hnot as [->|[-> Hpid]]; [done|].
  rewrite !andb_false_r.
  destruct (truthy projectId_value) eqn:Ht; [|by rewrite andb_false_r].
  destruct Hpid. by apply supplied_truthy.
Qed.

(** X3.  A response with a success status whose body cannot be read as
    JSON, or reads as [null], is handled like a transport failure: the run
    does not throw, makes no further attempt on that endpoint and goes on
    with the first attempt on the next endpoint, or ends with [null] when
    there is none. *)
Theorem onboardUser_malformed_body w pre i b req r post :
  emitted onboardUser w = pre ++ EvFetch i b req (Resolved r) :: post →
  ok r = true →
  (∃ e, json r = inl e) ∨ (∃ data, json r = inr data ∧ nullish data = true) →
  ∃ v,
    result_of onboardUser w = Val v
    ∧ Forall (fun e => ∀ j, fetch_ix e = Some j → (i < j)%nat) post
    ∧ match ONBOARD_USER_ENDPOINTS !! S i with
      | Some next =>
          ∃ res' post', post = EvFetch (S i) 0 (onboard_request next) res' :: post'
      | None => post = [] ∧ v = VNull
      end.
Proof.
  intros Hev Hok Hbody.
  destruct (onboardUser_shape ONBOARD_USER_ENDPOINTS ANTIGRAVITY_HEADERS network
              token tierId projectId maxAttempts delayMs w) as (v & Hres & Hshape).
  destruct (endpoints_run_fetch _ _ _ _ _ _ _ _ _ _ Hshape _ _ _ _ _ _ Hev)
    as (_ & _ & _ & Hfollow).
  unfold Onboarding.follows in Hfollow.
  rewrite (verdict_malformed _ Hok Hbody) in Hfollow.
  destruct Hfollow as [Hlater Hnext]. rewrite Nat.sub_0_r in Hnext.
  by exists v.
Qed.

(** X4.  A poll that succeeded but does not complete (its [done] is
    falsy, or it is truthy while the answer has no managed identifier and
    the caller supplied no [projectId]) keeps the run on the same
    endpoint: unless it was the last allowed attempt, the run sleeps
    [delayMs] and sends the same request again as the next attempt.  After
    the last allowed attempt it goes on with the next endpoint, or ends
    with [null]. *)
Theorem onboardUser_not_done w pre i b req res post data :
  emitted onboardUser w = pre ++ EvFetch i b req res :: post →
  parsed res = Some data →
  nullish data = false →
  truthy (done_of data) = false
  ∨ (truthy (managedProjectId_of data) = false ∧ ¬ supplied) →
  (b < maxAttempts - 1 →
     ∃ res' post', post = EvSleep delayMs :: EvFetch i (b + 1) req res' :: post')
  ∧ (¬ b < maxAttempts - 1 →
     b = maxAttempts - 1
     ∧ ∃ v,
         result_of onboardUser w = Val v
         ∧ Forall (fun e => ∀ j, fetch_ix e = Some j → (i < j)%nat) post
         ∧ match ONBOARD_USER_ENDPOINTS !! S i with
           | Some next =>
               ∃ res' post',
                 post = EvFetch (S i) 0 (onboard_request next) res' :: post'
           | None => post = [] ∧ v = VNull
           end).
Proof.
  intros Hev Hp Hnull Hnot.
  destruct (onboardUser_shape ONBOARD_USER_ENDPOINTS ANTIGRAVITY_HEADERS network
              token tierId projectId maxAttempts delayMs w) as (v & Hres & Hshape).
  destruct (endpoints_run_fetch _ _ _ _ _ _ _ _ _ _ Hshape _ _ _ _ _ _ Hev)
    as (_ & _ & Hb & Hfollow).
  unfold Onboarding.follows in Hfollow.
  rewrite (verdict_not_done _ _ Hp Hnull Hnot) in Hfollow.
  case_bool_decide as Hlast; split; try done.
  intros _. split; [lia|].
  destruct Hfollow as [Hlater Hnext]. rewrite Nat.sub_0_r in Hnext.
  by exists v.
Qed.

(** X5.  What [onboardUser] returns is [null] or a truthy value, never
    [undefined] or an empty string.  A value other than [null] comes from
    the last poll of the run, which succeeded with a truthy [done]: it is
    the managed identifier of that answer, or, only when the answer has
    none, the caller's non-empty [projectId]. *)
Theorem onboardUser_result_provenance w :
  ∃ v,
    result_of onboardUser w = Val v
    ∧ (v = VNull
       ∨ ∃ pre i b req res data,
           emitted onboardUser w = pre ++ [EvFetch i b req res]
           ∧ parsed res = Some data
           ∧ truthy (done_of data) = true
           ∧ truthy v = true
           ∧ (v = managedProjectId_of data
              ∨ truthy (managedProjectId_of data) = false
                ∧ ∃ p, projectId = Some p ∧ p ≠ "" ∧ v = VStr p)).
Proof.
  destruct (onboardUser_shape ONBOARD_USER_ENDPOINTS ANTIGRAVITY_HEADERS network
              token tierId projectId maxAttempts delayMs w) as (v & Hres & Hshape).
  exists v. split; [done|].
  destruct (endpoints_run_result _ _ _ _ _ _ _ _ _ _ Hshape)
    as [->|(pre & i & b & req & res & Hev & Hc)]; [by left|right].
  destruct (verdict_completed _ _ _ Hc) as (data & Hp & Hd & Ht & Hv).
  exists pre, i, b, req, res, data. repeat (split; [done|]).
  destruct Hv as [->|[Hm ->]]; [by left|right]. split; [done|].
  apply supplied_truthy in Ht as (p & Hpid & Hne).
  exists p. unfold Onboarding.projectId_value. by rewrite Hpid.
Qed.

(** *** The order of the requests *)

Lemma attempts_run_order ix endpoint attempt evs cpl :
  attempts_run ix endpoint attempt evs cpl →
  ∀ pre i b req res mid j c req' res' post,
    evs = pre ++ EvFetch i b req res :: mid ++ EvFetch j c req' res' :: post →
    i = j ∧ b < c.
Proof.
  induction 1 as [a Ha|a res0 v Ha Hv|a res0 Ha Hv|a res0 evs cpl Ha Hv Hrun IH
                 |a res0 evs cpl Ha Hv Hrun IH];
    intros pre i b req res mid j c req' res' post Heq.
  - by apply ListAux.nil_eq_mid in Heq.
  - apply ListAux.singleton_eq_mid in Heq as (_ & _ & Hnil). by destruct mid.
  - apply ListAux.singleton_eq_mid in Heq as (_ & _ & Hnil). by destruct mid.
  - apply ListAux.cons_eq_mid in Heq as [(-> & [= <- <- <- <-] & Heq)|(pre' & -> & Heq)].
    + apply ListAux.cons_eq_mid in Heq as [(_ & [=] & _)|(mid' & -> & Heq)].
      destruct (attempts_run_fetch _ _ _ _ _ _ _ _ _ _ _ Hrun _ _ _ _ _ _ Heq)
        as (-> & _ & Hc & _).
      split; [done|lia].
    + apply ListAux.cons_eq_mid in Heq as [(_ & [=] & _)|(pre'' & -> & Heq)].
      by apply (IH _ _ _ _ _ _ _ _ _ _ _ Heq).
  - apply ListAux.cons_eq_mid in Heq as [(-> & [= <- <- <- <-] & Heq)|(pre' & -> & Heq)].
    + destruct (attempts_run_fetch _ _ _ _ _ _ _ _ _ _ _ Hrun _ _ _ _ _ _ Heq)
        as (-> & _ & Hc & _).
      split; [done|lia].
    + by apply (IH _ _ _ _ _ _ _ _ _ _ _ Heq).
Qed.

Lemma endpoints_run_order ix endpoints evs v :
  endpoints_run ix endpoints evs v →
  ∀ pre i b req res mid j c req' res' post,
    evs = pre ++ EvFetch i b req res :: mid ++ EvFetch j c req' res' :: post →
    (i < j)%nat ∨ (i = j ∧ b < c).
Proof.
  induction 1 as [|ix endpoint rest evs v Hrun
                 |ix endpoint rest evs evs' v Hrun Hrest IH];
    intros pre i b req res mid j c req' res' post Heq.
  - by apply ListAux.nil_eq_mid in Heq.
  - right. by apply (attempts_run_order _ _ _ _ _ Hrun _ _ _ _ _ _ _ _ _ _ _ Heq).
  - apply ListAux.app_eq_mid in Heq as [(post1 & Heq & Hpost)|(pre2 & -> & Heq)].
    + symmetry in Hpost.
      apply ListAux.app_eq_mid in Hpost as [(post1' & -> & _)|(pre2 & -> & Hsnd)].
      * right.
        by apply (attempts_run_order _ _ _ _ _ Hrun _ _ _ _ _ _ _ _ _ _ _ Heq).
      * left.
        destruct (attempts_run_fetch _ _ _ _ _ _ _ _ _ _ _ Hrun _ _ _ _ _ _ Heq)
          as (-> & _).
        pose proof (endpoints_run_ge _ _ _ _ _ _ _ _ _ _ Hrest) as Hge.
        rewrite Hsnd, Forall_app, Forall_cons in Hge.
        destruct Hge as (_ & Hj & _). specialize (Hj j eq_refl). lia.
    + by apply (IH _ _ _ _ _ _ _ _ _ _ _ Heq).
Qed.

(** X6.  Requests go out in order: of two requests of a run, the later
    one is addressed to an endpoint further down the list, or to the same
    endpoint with a larger attempt number.  No endpoint is polled again
    once the run has left it, and no attempt is repeated. *)
Theorem onboardUser_order w pre i b req res mid j c req' res' post :
  emitted onboardUser w
  = pre ++ EvFetch i b req res :: mid ++ EvFetch j c req' res' :: post →
  (i < j)%nat ∨ (i = j ∧ b < c).
Proof.
  intros Hev.
  destruct (onboardUser_shape ONBOARD_USER_ENDPOINTS ANTIGRAVITY_HEADERS network
              token tierId projectId maxAttempts delayMs w) as (v & _ & Hshape).
  by apply (endpoints_run_order _ _ _ _ Hshape _ _ _ _ _ _ _ _ _ _ _ Hev).
Qed.

(** *** Against a network that always answers the same *)

Lemma for_attempts_stationary ix endpoint attempts :
  (∀ w1 w2 req, network w1 req = network w2 req) →
  attempts ≠ [] →
  ∀ w, ∃ w',
    for_attempts ix endpoint attempts w
    = (Val match verdict_of (network [] (onboard_request endpoint)) with
           | Completed v => Return v
           | Abandon | NotDone => Normal
           end, w').
Proof.
  intros Hsame. induction attempts as [|a rest IH]; intros Hne w; [done|].
  simpl. unfold bind at 1. rewrite attempt_step. cbv zeta.
  rewrite (Hsame w [] (onboard_request endpoint)).
  destruct (verdict_of (network [] (onboard_request endpoint))) as [v| |] eqn:Hv.
  - by eexists.
  - by eexists.
  - destruct rest as [|a' rest].
    + destruct (a <? maxAttempts - 1); by eexists.
    + destruct (a <? maxAttempts - 1).
      * destruct (IH ltac:(done)
                    ((w ++ [EvFetch ix a (onboard_request endpoint)
                              (network [] (onboard_request endpoint))])
                       ++ [EvSleep delayMs])) as (w' & Hrun).
        by exists w'.
      * destruct (IH ltac:(done)
                    (w ++ [EvFetch ix a (onboard_request endpoint)
                             (network [] (onboard_request endpoint))]))
          as (w' & Hrun).
        by exists w'.
Qed.

Lemma for_endpoints_stationary endpoints :
  (∀ w1 w2 req, network w1 req = network w2 req) →
  0 < maxAttempts →
  ∀ ix w, ∃ w', for_endpoints ix endpoints w = (Val (first_completion endpoints), w').
Proof.
  intros Hsame Hmax. induction endpoints as [|endpoint rest IH]; intros ix w.
  - by eexists.
  - destruct (for_attempts_stationary ix endpoint (seqZ 0 maxAttempts) Hsame) with w
      as (w' & Hrun).
    { rewrite seqZ_cons by done. done. }
    simpl. unfold bind at 1. rewrite Hrun.
    destruct (verdict_of (network [] (onboard_request endpoint))) as [v| |].
    + by eexists.
    + apply IH.
    + apply IH.
Qed.

(** X7.  When the answer of the network to a request does not change over
    time and at least one attempt is allowed, [onboardUser] returns what
    the first endpoint of the list whose answer completes returns, and
    [null] when no endpoint's answer completes: the list is a priority
    order. *)
Theorem onboardUser_first_completion w :
  (∀ w1 w2 req, network w1 req = network w2 req) →
  0 < maxAttempts →
  result_of onboardUser w = Val (first_completion ONBOARD_USER_ENDPOINTS).
Proof.
  intros Hsame Hmax.
  destruct (for_endpoints_stationary ONBOARD_USER_ENDPOINTS Hsame Hmax 0%nat w)
    as (w' & Hrun).
  unfold result_of, Onboarding.onboardUser. by rewrite Hrun.
Qed.

(** *** What a request carries *)

Lemma assoc_rev_None {A : Type} (k : string) (l : list (string * A)) :
  assoc k l = None → assoc k (rev l) = None.
Proof.
  induction l as [|[k' v'] l IH]; simpl; [done|].
  destruct (String.eqb k k') eqn:Hk; [done|]. intros Hl.
  rewrite JSMore.assoc_app, (IH Hl). simpl. by rewrite Hk.
Qed.

(** X8.  The headers of a request are the object literal with
    [ANTIGRAVITY_HEADERS] spread last.  A header of [ANTIGRAVITY_HEADERS]
    is sent with the value it has there, also when it is [Authorization]
    or [Content-Type]; a header it does not define is sent only if it is
    one of these two, as [Bearer <token>] and [application/json].  Every
    request of a run is a [POST] with these headers to
    [<endpoint>/v1internal:onboardUser], for the endpoint at the position
    the request belongs to. *)
Theorem request_headers_spread :
  (∀ k v,
     assoc k (rev ANTIGRAVITY_HEADERS) = Some v →
     assoc k request_headers = Some v)
  ∧ (∀ k,
       assoc k ANTIGRAVITY_HEADERS = None →
       assoc k request_headers =
       if String.eqb k "Authorization" then Some ("Bearer " +:+ token)
       else if String.eqb k "Content-Type" then Some "application/json"
       else None)
  ∧ (∀ w pre i b req res post,
       emitted onboardUser w = pre ++ EvFetch i b req res :: post →
       headers req = request_headers
       ∧ method req = "POST"
       ∧ ∃ endpoint,
           ONBOARD_USER_ENDPOINTS !! i = Some endpoint
           ∧ url req = endpoint +:+ "/v1internal:onboardUser").
Proof.
  split; [|split].
  - intros k v Hk. unfold Onboarding.request_headers.
    by rewrite JSMore.assoc_spread, Hk.
  - intros k Hk. unfold Onboarding.request_headers.
    by rewrite JSMore.assoc_spread, (assoc_rev_None _ _ Hk).
  - intros w pre i b req res post Hev.
    destruct (onboardUser_shape ONBOARD_USER_ENDPOINTS ANTIGRAVITY_HEADERS network
                token tierId projectId maxAttempts delayMs w) as (v & _ & Hshape).
    destruct (endpoints_run_fetch _ _ _ _ _ _ _ _ _ _ Hshape _ _ _ _ _ _ Hev)
      as (_ & (endpoint & Hep & ->) & _).
    rewrite Nat.sub_0_r in Hep. split; [done|]. split; [done|]. by exists endpoint.
Qed.

(** X9.  The request body always has [tierId] and a [metadata] object
    with the three fixed markers.  [metadata.duetProject] is present
    exactly when a project identifier was supplied, and is that
    identifier, whatever the tier: the ["FREE"] tier carries it too. *)
Theorem requestBody_metadata :
  own requestBody "tierId" = VStr tierId
  ∧ own requestBody "metadata" = metadata
  ∧ own metadata "ideType" = VStr "IDE_UNSPECIFIED"
  ∧ own metadata "platform" = VStr "PLATFORM_UNSPECIFIED"
  ∧ own metadata "pluginType" = VStr "GEMINI"
  ∧ (has_own metadata "duetProject" = true ↔ supplied)
  ∧ (∀ p, projectId = Some p → p ≠ "" → own metadata "duetProject" = VStr p).
Proof.
  assert (own requestBody "tierId" = VStr tierId
          ∧ own requestBody "metadata" = metadata) as [Htier Hmeta].
  { unfold Onboarding.requestBody.
    by destruct (negb (String.eqb tierId "FREE") && truthy projectId_value). }
  split; [done|]. split; [done|].
  rewrite (supplied_truthy projectId). unfold Onboarding.metadata.
  destruct (truthy projectId_value) eqn:Ht; simpl.
  - repeat (split; [done|]). intros p Hp Hne.
    unfold Onboarding.projectId_value. by rewrite Hp.
  - repeat (split; [done|]). intros p Hp Hne.
    unfold Onboarding.projectId_value in Ht. rewrite Hp in Ht. simpl in Ht.
    by destruct (String.eqb_spec p "").
Qed.

End Runs.

(** *** Instances *)

Lemma onboardUser_nothing_to_try_witness :
  (Examples.endpoints = [] ∨ 0 ≤ 0)
  ∧ onboardUser Examples.endpoints Examples.product_headers
      (Examples.always Examples.server_error) "token" "PRO" (Some "my-project")
      0 5000 []
    = (Val VNull, []).
Proof.
  assert (Examples.endpoints = [] ∨ 0 ≤ 0) as Hnone by (right; lia).
  split; [exact Hnone|].
  exact (onboardUser_nothing_to_try Examples.endpoints Examples.product_headers
           (Examples.always Examples.server_error) "token" "PRO"
           (Some "my-project") 0 5000 [] Hnone).
Defined.

Lemma onboardUser_malformed_body_witness :
  let r := {| ok := true; status := 200; text := inr ""; json := inr VNull |} in
  emitted (Examples.onboard (Examples.always (Resolved r))) []
  = [EvFetch 0 0 (Examples.request_to "https://daily.example") (Resolved r)]
    ++ EvFetch 1 0 (Examples.request_to "https://prod.example") (Resolved r) :: []
  ∧ ok r = true
  ∧ nullish VNull = true
  ∧ result_of (Examples.onboard (Examples.always (Resolved r))) [] = Val VNull.
Proof.
  intros r.
  assert (emitted (Examples.onboard (Examples.always (Resolved r))) []
          = [EvFetch 0 0 (Examples.request_to "https://daily.example") (Resolved r)]
            ++ EvFetch 1 0 (Examples.request_to "https://prod.example") (Resolved r)
            :: []) as Hev by (vm_compute; reflexivity).
  split; [exact Hev|]. split; [reflexivity|]. split; [reflexivity|].
  destruct (onboardUser_malformed_body Examples.endpoints Examples.product_headers
              (Examples.always (Resolved r)) "token" "PRO" (Some "my-project")
              3 5000 [] _ _ _ _ _ _ Hev eq_refl
              (or_intror (ex_intro _ VNull (conj eq_refl eq_refl))))
    as (v & Hres & _ & Hnext).
  simpl in Hnext. destruct Hnext as [_ ->]. exact Hres.
Defined.

Lemma onboardUser_not_done_witness :
  let answer := Examples.ok_response Examples.not_done in
  let daily := Examples.request_to "https://daily.example" in
  let prod := Examples.request_to "https://prod.example" in
  emitted (Examples.onboard (Examples.always answer)) []
  = [] ++ EvFetch 0 0 daily answer
       :: [EvSleep 5000; EvFetch 0 1 daily answer; EvSleep 5000;
           EvFetch 0 2 daily answer;
           EvFetch 1 0 prod answer; EvSleep 5000;
           EvFetch 1 1 prod answer; EvSleep 5000;
           EvFetch 1 2 prod answer]
  ∧ Onboarding.parsed answer = Some Examples.not_done
  ∧ nullish Examples.not_done = false
  ∧ truthy (done_of Examples.not_done) = false
  ∧ 0 < 3 - 1
  ∧ ∃ res' post',
      [EvSleep 5000; EvFetch 0 1 daily answer; EvSleep 5000;
       EvFetch 0 2 daily answer;
       EvFetch 1 0 prod answer; EvSleep 5000;
       EvFetch 1 1 prod answer; EvSleep 5000;
       EvFetch 1 2 prod answer]
      = EvSleep 5000 :: EvFetch 0 (0 + 1) daily res' :: post'.
Proof.
  intros answer daily prod.
  assert (emitted (Examples.onboard (Examples.always answer)) []
          = [] ++ EvFetch 0 0 daily answer
               :: [EvSleep 5000; EvFetch 0 1 daily answer; EvSleep 5000;
                   EvFetch 0 2 daily answer;
                   EvFetch 1 0 prod answer; EvSleep 5000;
                   EvFetch 1 1 prod answer; EvSleep 5000;
                   EvFetch 1 2 prod answer]) as Hev by (vm_compute; reflexivity).
  assert (0 < 3 - 1) as Hlast by lia.
  split; [exact Hev|]. do 3 (split; [reflexivity|]). split; [exact Hlast|].
  destruct (onboardUser_not_done Examples.endpoints Examples.product_headers
              (Examples.always answer) "token" "PRO" (Some "my-project")
              3 5000 [] _ _ _ _ _ _ Examples.not_done Hev eq_refl eq_refl
              (or_introl eq_refl)) as [Hretry _].
  exact (Hretry Hlast).
Defined.

Lemma onboardUser_order_witness :
  let answer := Examples.ok_response Examples.not_done in
  let daily := Examples.request_to "https://daily.example" in
  let prod := Examples.request_to "https://prod.example" in
  emitted (Examples.onboard (Examples.always answer)) []
  = [EvFetch 0 0 daily answer; EvSleep 5000]
    ++ EvFetch 0 1 daily answer
    :: [EvSleep 5000; EvFetch 0 2 daily answer]
    ++ EvFetch 1 0 prod answer
    :: [EvSleep 5000; EvFetch 1 1 prod answer; EvSleep 5000; EvFetch 1 2 prod answer]
  ∧ ((0 < 1)%nat ∨ (0%nat = 1%nat ∧ 1 < 0)).
Proof.
  intros answer daily prod.
  assert (emitted (Examples.onboard (Examples.always answer)) []
          = [EvFetch 0 0 daily answer; EvSleep 5000]
            ++ EvFetch 0 1 daily answer
            :: [EvSleep 5000; EvFetch 0 2 daily answer]
            ++ EvFetch 1 0 prod answer
            :: [EvSleep 5000; EvFetch 1 1 prod answer; EvSleep 5000;
                EvFetch 1 2 prod answer]) as Hev by (vm_compute; reflexivity).
  split; [exact Hev|].
  exact (onboardUser_order Examples.endpoints Examples.product_headers
           (Examples.always answer) "token" "PRO" (Some "my-project") 3 5000 []
           _ _ _ _ _ _ _ _ _ _ _ Hev).
Defined.

Lemma onboardUser_first_completion_witness :
  (∀ (w1 w2 : world) (req : request),
     Examples.always (Examples.ok_response Examples.done_with_X) w1 req
     = Examples.always (Examples.ok_response Examples.done_with_X) w2 req)
  ∧ 0 < 3
  ∧ result_of
      (Examples.onboard (Examples.always (Examples.ok_response Examples.done_with_X)))
      []
    = Val (VStr "X").
Proof.
  assert (∀ (w1 w2 : world) (req : request),
            Examples.always (Examples.ok_response Examples.done_with_X) w1 req
            = Examples.always (Examples.ok_response Examples.done_with_X) w2 req)
    as Hsame by reflexivity.
  assert (0 < 3) as Hmax by lia.
  split; [exact Hsame|]. split; [exact Hmax|].
  exact (onboardUser_first_completion Examples.endpoints Examples.product_headers
           (Examples.always (Examples.ok_response Examples.done_with_X))
           "token" "PRO" (Some "my-project") 3 5000 [] Hsame Hmax).
Defined.

Lemma request_headers_spread_witness :
  assoc "Authorization" Examples.product_headers = None
  ∧ assoc "Authorization" (request_headers Examples.product_headers "token")
    = Some "Bearer token"
  ∧ assoc "User-Agent" (request_headers Examples.product_headers "token")
    = Some "antigravity".
Proof.
  destruct (request_headers_spread Examples.endpoints Examples.product_headers
              (Examples.always Examples.server_error) "token" "PRO"
              (Some "my-project") 3 5000) as (Hspread & Hdefault & _).
  split; [reflexivity|]. split.
  - exact (Hdefault "Authorization" eq_refl).
  - exact (Hspread "User-Agent" "antigravity" eq_refl).
Defined.

Lemma requestBody_metadata_witness :
  "my-project" ≠ ""
  ∧ own (Onboarding.metadata (Some "my-project")) "duetProject" = VStr "my-project"
  ∧ own (Onboarding.requestBody "FREE" (Some "my-project")) "metadata"
    = Onboarding.metadata (Some "my-project").
Proof.
  assert ("my-project" ≠ "") as Hne by discriminate.
  destruct (requestBody_metadata "FREE" (Some "my-project"))
    as (_ & Hmeta & _ & _ & _ & _ & Hduet).
  split; [exact Hne|]. split; [|exact Hmeta].
  exact (Hduet "my-project" eq_refl Hne).
Defined.

(** X10.  Called without [maxAttempts] and [delayMs], [onboardUser] sends
    at most ten requests to each configured endpoint, and the events of
    each endpoint tried hold at most nine sleeps of five seconds, 45000 ms
    in all.  Over the run: at most ten requests and 45000 ms of sleep
    times the number of endpoints. *)
Theorem onboardUser_with_defaults_effort
    (ONBOARD_USER_ENDPOINTS : list string)
    (ANTIGRAVITY_HEADERS : list (string * string))
    (network : world → request → fetch_result)
    (token tierId : string) (projectId : option string) (w : world) :
  let run :=
    onboardUser_with_defaults ONBOARD_USER_ENDPOINTS ANTIGRAVITY_HEADERS network
      token tierId projectId in
  (∀ i, (count_fetches_at i (emitted run w) ≤ 10)%nat)
  ∧ (∃ segments,
       emitted run w = concat segments
       ∧ (length segments ≤ length ONBOARD_USER_ENDPOINTS)%nat
       ∧ ∀ k segment,
           segments !! k = Some segment →
           Forall (fun e => ∀ j, fetch_ix e = Some j → j = k) segment
           ∧ (count_fetches segment ≤ 10)%nat
           ∧ (count_sleeps segment ≤ 9)%nat
           ∧ time_slept segment = Z.of_nat (count_sleeps segment) * 5000
           ∧ 0 ≤ time_slept segment ≤ 45000)
  ∧ (count_fetches (emitted run w) ≤ 10 * length ONBOARD_USER_ENDPOINTS)%nat
  ∧ 0 ≤ time_slept (emitted run w)
      ≤ 45000 * Z.of_nat (length ONBOARD_USER_ENDPOINTS).
Proof.
  intros run. subst run. unfold onboardUser_with_defaults.
  destruct (onboardUser_shape ONBOARD_USER_ENDPOINTS ANTIGRAVITY_HEADERS network
              token tierId projectId DEFAULT_MAX_ATTEMPTS DEFAULT_DELAY_MS w)
    as (v & _ & Hshape).
  split; [|split].
  - intros i. by apply (endpoints_run_counts_at _ _ _ _ _ _ _ _ _ _ Hshape).
  - destruct (endpoints_run_segments _ _ _ _ _ _ _ _ _ _ Hshape)
      as (segments & Heq & Hlen & Hseg).
    exists segments. split; [done|]. split; [done|].
    intros k segment Hk. destruct (Hseg k segment Hk) as (Hix & Hf & Hs & Ht).
    unfold DEFAULT_MAX_ATTEMPTS, DEFAULT_DELAY_MS in *.
    change (Z.to_nat 10) with 10%nat in *. simpl in Hs.
    split; [done|]. split; [done|]. split; [done|]. split; [done|].
    rewrite Ht. lia.
  - destruct (endpoints_run_counts _ _ _ _ _ _ _ _ _ _ Hshape) as (Hf & Hs & Ht).
    unfold DEFAULT_MAX_ATTEMPTS, DEFAULT_DELAY_MS in *.
    change (Z.to_nat 10) with 10%nat in *. simpl in Hs.
    split; [lia|]. rewrite Ht. lia.
Qed.

End OnboardingMore.

(** ** Tier selection, continued *)

Module TiersMore.
Import JS Tiers JSFacts TiersFacts.

Lemma first_default_some tiers id :
  first_default tiers = Some id →
  ∃ t, t ∈ tiers ∧ flag_truthy t = true ∧ id = own t "id".
Proof.
  induction tiers as [|t ts IH]; simpl; [done|].
  destruct (truthy (opt_member t "isDefault")) eqn:Hflag.
  - intros [= <-]. exists t. split; [left|done].
  - intros Hts. destruct (IH Hts) as (d & Hd & Hrest). exists d. split; [by right|done].
Qed.

Lemma flag_truthy_not_nullish t : flag_truthy t = true → nullish t = false.
Proof. unfold flag_truthy, opt_member. by destruct (nullish t). Qed.

(** X11.  [getDefaultTierId] never invents a value: its result is
    [undefined], or the [id] property of an element of the list that is
    neither [null] nor [undefined]. *)
Theorem getDefaultTierId_from_list allowedTiers :
  getDefaultTierId allowedTiers = VUndefined
  ∨ ∃ tiers t,
      allowedTiers = Some tiers ∧ t ∈ tiers ∧ nullish t = false
      ∧ getDefaultTierId allowedTiers = own t "id".
Proof.
  destruct allowedTiers as [tiers|]; [|by left].
  unfold getDefaultTierId. destruct tiers as [|t0 ts]; [by left|].
  change (length (t0 :: ts) =? 0)%nat with false. cbv iota.
  destruct (first_default (t0 :: ts)) as [id|] eqn:Hfirst.
  - right. destruct (first_default_some _ _ Hfirst) as (t & Ht & Hflag & ->).
    exists (t0 :: ts), t. split; [done|]. split; [done|].
    split; [by apply flag_truthy_not_nullish|done].
  - simpl. unfold opt_member. destruct (nullish t0) eqn:Hnull; [by left|right].
    exists (t0 :: ts), t0. split; [done|]. split; [left|done].
Qed.

Lemma first_default_skip before n after :
  nullish n = true →
  first_default (before ++ n :: after) = first_default (before ++ after).
Proof.
  intros Hnull. induction before as [|t ts IH]; simpl.
  - unfold opt_member. by rewrite Hnull.
  - by rewrite IH.
Qed.

(** X12.  [null] and [undefined] elements of the list are passed over
    without an error.  One that is not the first element can be removed
    without changing the result.  When the first element is [null] or
    [undefined], the result is that of the rest of the list if some later
    element is flagged, and [undefined] otherwise, even if later elements
    have an [id]. *)
Theorem getDefaultTierId_nullish_elements n :
  nullish n = true →
  (∀ t before after,
     getDefaultTierId (Some (t :: before ++ n :: after))
     = getDefaultTierId (Some (t :: before ++ after)))
  ∧ (∀ rest,
       Exists (fun t => flag_truthy t = true) rest →
       getDefaultTierId (Some (n :: rest)) = getDefaultTierId (Some rest))
  ∧ (∀ rest,
       Forall (fun t => flag_truthy t = false) rest →
       getDefaultTierId (Some (n :: rest)) = VUndefined).
Proof.
  intros Hnull. split; [|split].
  - intros t before after. unfold getDefaultTierId.
    change (length (t :: before ++ n :: after) =? 0)%nat with false.
    change (length (t :: before ++ after) =? 0)%nat with false. cbv iota.
    change (first_default (t :: before ++ n :: after))
      with (first_default ((t :: before) ++ n :: after)).
    by rewrite (first_default_skip (t :: before) n after Hnull).
  - intros rest Hex. unfold getDefaultTierId.
    change (length (n :: rest) =? 0)%nat with false. cbv iota.
    change (first_default (n :: rest)) with (first_default ([] ++ n :: rest)).
    rewrite (first_default_skip [] n rest Hnull). simpl.
    destruct rest as [|t ts]; [by apply Exists_nil in Hex|].
    change (length (t :: ts) =? 0)%nat with false. cbv iota.
    destruct (first_default (t :: ts)) eqn:Hfirst; [done|].
    apply Exists_exists in Hex as (d & Hd & Hflag).
    apply list_elem_of_split in Hd as (l1 & l2 & Hsplit).
    exfalso. revert Hfirst. rewrite Hsplit. clear Hsplit.
    induction l1 as [|x l1 IH]; simpl.
    + unfold flag_truthy in Hflag. by rewrite Hflag.
    + by destruct (truthy (opt_member x "isDefault")).
  - intros rest Hall. unfold getDefaultTierId.
    change (length (n :: rest) =? 0)%nat with false. cbv iota.
    change (first_default (n :: rest)) with (first_default ([] ++ n :: rest)).
    rewrite (first_default_skip [] n rest Hnull). simpl.
    rewrite (first_default_none _ Hall). unfold opt_member. by rewrite Hnull.
Qed.

Lemma getDefaultTierId_nullish_elements_witness :
  nullish VNull = true
  ∧ getDefaultTierId (Some [VNull; tier "FREE" false; tier "PRO" true]) = VStr "PRO"
  ∧ getDefaultTierId (Some [VNull; tier "FREE" false]) = VUndefined.
Proof.
  split; [reflexivity|].
  destruct (getDefaultTierId_nullish_elements VNull eq_refl) as (_ & Hlater & Hnone).
  split.
  - rewrite Hlater; [reflexivity|]. right. left. reflexivity.
  - apply Hnone. repeat constructor.
Defined.

End TiersMore.

(** ** Session identity, continued *)

Set Warnings "-clear-no-such-hyp".

Module SessionMore.
Import JS Session SessionFacts.

Section Store.

Context (entropy : nat → N) (dateNow : nat → Z).

Abbreviation generateBinaryStyleId := (generateBinaryStyleId entropy dateNow).
Abbreviation deriveSessionId := (deriveSessionId entropy dateNow).
Abbreviation step := (step entropy dateNow).
Abbreviation run := (run entropy dateNow).
Abbreviation token_at := (token_at entropy dateNow).
Abbreviation tokens_distinct := (tokens_distinct entropy dateNow).
Abbreviation store_invariant := (store_invariant entropy dateNow).

Lemma run_app calls calls' w : run (calls ++ calls') w = run calls' (run calls w).
Proof. unfold Session.run. by rewrite fold_left_app. Qed.

Lemma account_cases accountEmail :
  no_account accountEmail = true
  ∨ ∃ account, accountEmail = Some account ∧ account ≠ "".
Proof.
  destruct accountEmail as [account|]; [|by left]. simpl.
  destruct (String.eqb_spec account ""); [by left|right]. by exists account.
Qed.

(** *** The invariant of the store *)

Lemma store_invariant_initial : store_invariant initial_world.
Proof.
  split; [done|]. intros account sessionId. unfold initial_world. simpl.
  by rewrite lookup_empty.
Qed.

Lemma store_invariant_generate w :
  clock_reads w = uuids_drawn w →
  (generateBinaryStyleId w).1 = token_at (uuids_drawn w).
Proof. intros Hclock. unfold Session.token_at. simpl. by rewrite Hclock. Qed.

Lemma store_invariant_step c w : store_invariant w → store_invariant (step c w).
Proof.
  intros [Hclock Hstore]. destruct c as [anthropicRequest accountEmail|].
  - simpl. destruct (account_cases accountEmail) as [Hno|(account & -> & Hne)].
    + rewrite (derive_no_account _ _ _ _ _ Hno). split; simpl; [by rewrite Hclock|].
      intros a t Ha. destruct (Hstore a t Ha) as (Hnonempty & i & Hi & ->).
      split; [done|]. exists i. split; [lia|done].
    + destruct (runtimeSessionStore w !! account) as [cached|] eqn:Hacc.
      * by rewrite (derive_hit _ _ _ _ cached).
      * rewrite derive_miss by done. split; simpl; [by rewrite Hclock|].
        intros a t. destruct (decide (a = account)) as [->|Hother].
        -- rewrite lookup_insert_eq. intros [= <-]. split; [done|].
           exists (uuids_drawn w). split; [lia|].
           unfold Session.token_at. by rewrite Hclock.
        -- rewrite lookup_insert_ne by done. intros Ha.
           destruct (Hstore a t Ha) as (Hnonempty & i & Hi & ->).
           split; [done|]. exists i. split; [lia|done].
  - split; [done|]. intros a t. simpl. by rewrite lookup_empty.
Qed.

Lemma store_invariant_run calls : ∀ w, store_invariant w → store_invariant (run calls w).
Proof.
  induction calls as [|c calls IH]; intros w Hinv; [done|].
  simpl. apply IH. by apply store_invariant_step.
Qed.

Lemma step_drawn c w : (uuids_drawn w ≤ uuids_drawn (step c w))%nat.
Proof.
  destruct c as [anthropicRequest accountEmail|]; [|done]. simpl.
  destruct (account_cases accountEmail) as [Hno|(account & -> & Hne)].
  - rewrite (derive_no_account _ _ _ _ _ Hno). simpl. lia.
  - destruct (runtimeSessionStore w !! account) as [cached|] eqn:Hacc.
    + by rewrite (derive_hit _ _ _ _ cached).
    + rewrite derive_miss by done. simpl. lia.
Qed.

Lemma run_drawn calls : ∀ w, (uuids_drawn w ≤ uuids_drawn (run calls w))%nat.
Proof.
  induction calls as [|c calls IH]; intros w; [done|].
  simpl. etrans; [apply (step_drawn c)|apply IH].
Qed.

Lemma tokens_distinct_le n m : (n ≤ m)%nat → tokens_distinct m → tokens_distinct n.
Proof. intros Hle Hm i j Hi Hj. apply Hm; lia. Qed.

(** *** Different accounts, different tokens *)

Lemma step_injective c w :
  store_invariant w →
  tokens_distinct (uuids_drawn (step c w)) →
  (∀ a1 a2 t,
     runtimeSessionStore w !! a1 = Some t →
     runtimeSessionStore w !! a2 = Some t → a1 = a2) →
  ∀ a1 a2 t,
    runtimeSessionStore (step c w) !! a1 = Some t →
    runtimeSessionStore (step c w) !! a2 = Some t → a1 = a2.
Proof.
  intros [Hclock Hstore] Hdistinct Hinj.
  destruct c as [anthropicRequest accountEmail|]; simpl in *.
  - destruct (account_cases accountEmail) as [Hno|(account & -> & Hne)].
    + by rewrite (derive_no_account _ _ _ _ _ Hno) in *.
    + destruct (runtimeSessionStore w !! account) as [cached|] eqn:Hacc.
      * by rewrite (derive_hit _ _ _ _ cached) in *.
      * rewrite derive_miss in * by done. simpl in *.
        assert (∀ a t, a ≠ account →
                  runtimeSessionStore w !! a = Some t →
                  t ≠ (generateBinaryStyleId w).1) as Hfresh.
        { intros a t _ Ha Heq. destruct (Hstore a t Ha) as (_ & i & Hi & ->).
          rewrite store_invariant_generate in Heq by done.
          apply Hdistinct in Heq; lia. }
        intros a1 a2 t.
        destruct (decide (a1 = account)) as [->|H1],
                 (decide (a2 = account)) as [->|H2]; [done| | |].
        -- rewrite lookup_insert_eq, lookup_insert_ne by done.
           intros [= <-] H. by destruct (Hfresh _ _ H2 H).
        -- rewrite lookup_insert_eq, lookup_insert_ne by done.
           intros H [= <-]. by destruct (Hfresh _ _ H1 H).
        -- rewrite !lookup_insert_ne by done. apply Hinj.
  - intros a1 a2 t. by rewrite lookup_empty.
Qed.

Lemma run_injective calls :
  ∀ w,
    store_invariant w →
    tokens_distinct (uuids_drawn (run calls w)) →
    (∀ a1 a2 t,
       runtimeSessionStore w !! a1 = Some t →
       runtimeSessionStore w !! a2 = Some t → a1 = a2) →
    ∀ a1 a2 t,
      runtimeSessionStore (run calls w) !! a1 = Some t →
      runtimeSessionStore (run calls w) !! a2 = Some t → a1 = a2.
Proof.
  induction calls as [|c calls IH]; intros w Hinv Hdistinct Hinj; [done|].
  simpl in *. apply IH; [by apply store_invariant_step|done|].
  apply step_injective; [done| |done].
  eapply tokens_distinct_le; [apply run_drawn|done].
Qed.

(** X13.  After any sequence of derivations and resets from the start of
    the process, two different accounts never share a cached token, as
    long as the tokens generated so far are pairwise different. *)
Theorem accounts_have_different_tokens calls account1 account2 sessionId1 sessionId2 :
  tokens_distinct (uuids_drawn (run calls initial_world)) →
  account1 ≠ account2 →
  runtimeSessionStore (run calls initial_world) !! account1 = Some sessionId1 →
  runtimeSessionStore (run calls initial_world) !! account2 = Some sessionId2 →
  sessionId1 ≠ sessionId2.
Proof.
  intros Hdistinct Hne H1 H2 ->. apply Hne.
  assert (∀ a1 a2 t,
            runtimeSessionStore initial_world !! a1 = Some t →
            runtimeSessionStore initial_world !! a2 = Some t → a1 = a2) as Hempty.
  { intros a1 a2 t. unfold initial_world. simpl. by rewrite lookup_empty. }
  exact (run_injective calls initial_world store_invariant_initial Hdistinct Hempty
           account1 account2 sessionId2 H1 H2).
Qed.

(** X14.  After a reset, an account that had a cached token is given a new
    one on its next derivation, different from the old one as long as the
    tokens generated so far, the new one included, are pairwise
    different: the counters of the generator are not reset with the
    store. *)
Theorem reset_gives_new_token calls anthropicRequest account sessionId :
  let w := run calls initial_world in
  tokens_distinct (S (uuids_drawn w)) →
  runtimeSessionStore w !! account = Some sessionId →
  (deriveSessionId anthropicRequest (Some account) (clearSessionStore w)).1
  = token_at (uuids_drawn w)
  ∧ (deriveSessionId anthropicRequest (Some account) (clearSessionStore w)).1
    ≠ sessionId.
Proof.
  intros w Hdistinct Hcached.
  destruct (store_invariant_run calls initial_world store_invariant_initial)
    as [Hclock Hstore]. fold w in Hclock, Hstore.
  destruct (Hstore _ _ Hcached) as (Hne & i & Hi & ->).
  rewrite derive_miss by done.
  assert ((generateBinaryStyleId (clearSessionStore w)).1 = token_at (uuids_drawn w))
    as Hnew.
  { unfold Session.token_at. simpl. by rewrite Hclock. }
  simpl in *. rewrite Hnew. split; [done|].
  intros Heq. apply Hdistinct in Heq; lia.
Qed.

(** *** The accounts in the store *)

Lemma derived_accounts_cons c calls :
  derived_accounts (c :: calls) =
  match c with
  | Derive _ (Some account) =>
      if String.eqb account "" then derived_accounts calls
      else {[account]} ∪ derived_accounts calls
  | Derive _ None | Clear => derived_accounts calls
  end.
Proof. done. Qed.

Lemma run_dom calls :
  ∀ w,
    Forall (fun c => is_clear c = false) calls →
    dom (runtimeSessionStore (run calls w))
    = dom (runtimeSessionStore w) ∪ derived_accounts calls.
Proof.
  induction calls as [|c calls IH]; intros w Hall.
  - simpl. unfold derived_accounts. simpl. set_solver.
  - apply Forall_cons in Hall as [Hc Hall].
    change (run (c :: calls) w) with (run calls (step c w)).
    rewrite (IH _ Hall), derived_accounts_cons.
    destruct c as [anthropicRequest accountEmail|]; [|done].
    change (step (Derive anthropicRequest accountEmail) w)
      with (deriveSessionId anthropicRequest accountEmail w).2.
    destruct (account_cases accountEmail) as [Hno|(account & -> & Hne)].
    + rewrite (derive_no_account _ _ _ _ _ Hno).
      destruct accountEmail as [a|]; [|done]. simpl in Hno. by rewrite Hno.
    + destruct (String.eqb_spec account ""); [done|].
      destruct (runtimeSessionStore w !! account) as [cached|] eqn:Hacc.
      * rewrite (derive_hit _ _ _ _ cached) by done.
        assert (account ∈ dom (runtimeSessionStore w)) as Hin.
        { apply elem_of_dom. by exists cached. }
        change (dom (runtimeSessionStore (cached, w).2))
          with (dom (runtimeSessionStore w)).
        set_solver.
      * rewrite derive_miss by done.
        cbn [snd runtimeSessionStore]. rewrite dom_insert_L. set_solver.
Qed.

Lemma derived_accounts_nonempty calls : "" ∉ derived_accounts calls.
Proof.
  induction calls as [|c calls IH]; [set_solver|].
  rewrite derived_accounts_cons.
  destruct c as [anthropicRequest [account|]|]; try done.
  destruct (String.eqb_spec account ""); [done|]. set_solver.
Qed.

(** X15.  The keys of the store are exactly the non-empty accounts a
    derivation was made for since the last reset (or since the start,
    added to what was there); the empty string is never a key, and a
    reset leaves no key. *)
Theorem store_keys calls :
  Forall (fun c => is_clear c = false) calls →
  (∀ w,
     dom (runtimeSessionStore (run calls w))
     = dom (runtimeSessionStore w) ∪ derived_accounts calls)
  ∧ (∀ before w,
       dom (runtimeSessionStore (run (before ++ Clear :: calls) w))
       = derived_accounts calls)
  ∧ "" ∉ derived_accounts calls.
Proof.
  intros Hall. split; [|split].
  - intros w. by apply run_dom.
  - intros before w. rewrite run_app. simpl. rewrite run_dom by done.
    simpl. rewrite dom_empty_L. set_solver.
  - apply derived_accounts_nonempty.
Qed.

End Store.

(** *** Instances *)

Lemma examples_tokens_distinct_2 : tokens_distinct Examples.entropy Examples.dateNow 2.
Proof.
  intros i j Hi Hj.
  destruct i as [|[|i]], j as [|[|j]]; try lia; try done;
    vm_compute; discriminate.
Qed.

Lemma accounts_have_different_tokens_witness :
  let calls := [Derive VNull (Some "a@x.com"); Derive VNull (Some "b@x.com")] in
  let w := run Examples.entropy Examples.dateNow calls initial_world in
  tokens_distinct Examples.entropy Examples.dateNow (uuids_drawn w)
  ∧ "a@x.com" ≠ "b@x.com"
  ∧ runtimeSessionStore w !! "a@x.com"
    = Some "01234567-89ab-4def-8123-456789abcdef1762117200000"
  ∧ runtimeSessionStore w !! "b@x.com"
    = Some "02468acf-1357-4bde-8246-8acf13579bde1762117200001"
  ∧ "01234567-89ab-4def-8123-456789abcdef1762117200000"
    ≠ "02468acf-1357-4bde-8246-8acf13579bde1762117200001".
Proof.
  intros calls w.
  assert (tokens_distinct Examples.entropy Examples.dateNow (uuids_drawn w))
    as Hdistinct by exact examples_tokens_distinct_2.
  assert ("a@x.com" ≠ "b@x.com") as Hne by discriminate.
  assert (runtimeSessionStore w !! "a@x.com"
          = Some "01234567-89ab-4def-8123-456789abcdef1762117200000") as Ha
    by (vm_compute; reflexivity).
  assert (runtimeSessionStore w !! "b@x.com"
          = Some "02468acf-1357-4bde-8246-8acf13579bde1762117200001") as Hb
    by (vm_compute; reflexivity).
  do 4 (split; [assumption|]).
  exact (accounts_have_different_tokens Examples.entropy Examples.dateNow calls
           "a@x.com" "b@x.com" _ _ Hdistinct Hne Ha Hb).
Defined.

Lemma reset_gives_new_token_witness :
  let calls := [Derive VNull (Some "a@x.com")] in
  let w := run Examples.entropy Examples.dateNow calls initial_world in
  tokens_distinct Examples.entropy Examples.dateNow (S (uuids_drawn w))
  ∧ runtimeSessionStore w !! "a@x.com"
    = Some "01234567-89ab-4def-8123-456789abcdef1762117200000"
  ∧ (deriveSessionId Examples.entropy Examples.dateNow VNull (Some "a@x.com")
       (clearSessionStore w)).1
    ≠ "01234567-89ab-4def-8123-456789abcdef1762117200000".
Proof.
  intros calls w.
  assert (tokens_distinct Examples.entropy Examples.dateNow (S (uuids_drawn w)))
    as Hdistinct by exact examples_tokens_distinct_2.
  assert (runtimeSessionStore w !! "a@x.com"
          = Some "01234567-89ab-4def-8123-456789abcdef1762117200000") as Ha
    by (vm_compute; reflexivity).
  split; [exact Hdistinct|]. split; [exact Ha|].
  exact (proj2 (reset_gives_new_token Examples.entropy Examples.dateNow calls VNull
                  "a@x.com" _ Hdistinct Ha)).
Defined.

Lemma store_keys_witness :
  let calls :=
    [Derive VNull (Some "a@x.com"); Derive VNull None; Derive VNull (Some "");
     Derive VNull (Some "b@x.com"); Derive VNull (Some "a@x.com")] in
  Forall (fun c => is_clear c = false) calls
  ∧ dom (runtimeSessionStore
           (run Examples.entropy Examples.dateNow calls initial_world))
    = dom (runtimeSessionStore initial_world)
      ∪ derived_accounts calls.
Proof.
  intros calls.
  assert (Forall (fun c => is_clear c = false) calls) as Hall
    by (repeat constructor).
  split; [exact Hall|].
  destruct (store_keys Examples.entropy Examples.dateNow calls Hall) as (Hdom & _).
  exact (Hdom initial_world).
Defined.

End SessionMore.
